(** * harold's deploy monitor (deploy.py): a shallow embedding

    The plugin keeps a dictionary of running pushes, one Twisted
    [DelayedCall] per push that reaps it after [deploy_ttl] seconds, and
    talks to IRC through two calls, [send_message] and [set_topic].

    Conventions of the embedding:
    - the monitor object, the reactor's delayed calls, the wall clock and
      the IRC bot's output are fields of one explicit [State];
    - a method is a function [State -> result State A]; a Python exception
      is the [Raise] outcome, which keeps the state reached at the raise;
    - a Python [float] ([index], [percent]) is a rational [Q]: a finite
      float is one.  In [onPushProgress] the quotient is only compared
      with a multiple of 0.25, and the division and the comparison are
      taken exactly.  In [status], where digits are printed, the
      arithmetic is rounded to binary64 ([round_double]) and can reach
      an infinity;
    - instants and durations are integers [Z], in seconds;
    - [self.deploys] is a [gmap string OngoingDeploy]; a [DelayedCall]
      handle is its position in the reactor's list of calls, so a push and
      the reactor share the call the way the Python objects do;
    - the HTTP listeners only parse a request and call one of the four
      [onPush...] methods; they appear as the constructors of [event]. *)

From Stdlib Require Import Ascii String QArith Qround Qabs Qpower Lqa Sorted.
From stdpp Require Import gmap strings list fin_maps pretty.

Local Open Scope string_scope.
Local Open Scope Z_scope.

(** ** Exceptions and the state-and-error monad *)

Inductive exn : Type :=
| AlreadyCalled
| AlreadyCancelled
| ZeroDivisionError
| TypeError
| OverflowError.

Inductive result (S A : Type) : Type :=
| Ok (a : A) (s : S)
| Raise (e : exn) (s : S).
Arguments Ok {S A} a s.
Arguments Raise {S A} e s.

Definition final {S A} (r : result S A) : S :=
  match r with Ok _ s => s | Raise _ s => s end.

Definition raised {S A} (r : result S A) : option exn :=
  match r with Ok _ _ => None | Raise e _ => Some e end.

Definition M (S A : Type) : Type := S -> result S A.

Definition ret {S A} (a : A) : M S A := fun s => Ok a s.

Definition bind {S A B} (m : M S A) (k : A -> M S B) : M S B :=
  fun s => match m s with
           | Ok a s' => k a s'
           | Raise e s' => Raise e s'
           end.

Definition raise {S A} (e : exn) : M S A := fun s => Raise e s.
Definition get {S} : M S S := fun s => Ok s s.
Definition modify {S} (f : S -> S) : M S unit := fun s => Ok tt (f s).

Notation "'do' x <- m ; k" := (bind m (fun x => k))
  (at level 10, x name, m at level 100, k at level 200).
Notation "m ;; k" := (bind m (fun _ => k))
  (at level 100, k at level 200, right associativity).

(** ** Twisted's [DelayedCall]

    The reactor is not part of the repository; the record follows the
    documented contract of [twisted.internet.base.DelayedCall]:
    [active()] is "neither cancelled nor called"; [cancel()] and
    [delay(secondsLater)] raise [AlreadyCancelled] / [AlreadyCalled] on a
    call that is not active; [delay] moves the scheduled time
    [secondsLater] seconds after the time currently scheduled. *)

Record DelayedCall : Type := mkCall {
  time : Z;            (* getTime(): when the call is due *)
  call_arg : string;   (* the id handed to [_remove_deploy] *)
  cancelled : bool;
  called : bool
}.

Definition active (c : DelayedCall) : bool :=
  negb (cancelled c || called c).

Definition set_cancelled (c : DelayedCall) : DelayedCall :=
  {| time := time c; call_arg := call_arg c;
     cancelled := true; called := called c |}.

Definition set_called (c : DelayedCall) : DelayedCall :=
  {| time := time c; call_arg := call_arg c;
     cancelled := cancelled c; called := true |}.

Definition add_delay (secondsLater : Z) (c : DelayedCall) : DelayedCall :=
  {| time := time c + secondsLater; call_arg := call_arg c;
     cancelled := cancelled c; called := called c |}.

(** ** The data model *)

Record OngoingDeploy : Type := mkDeploy {
  deploy_id : string;
  when : Z;
  who : string;
  args : string;
  log_path : string;
  quadrant : Z;
  where_ : option string;
  completion : option Q;
  host_count : Z;
  expirator : nat      (* handle of the push's [DelayedCall] *)
}.

Inductive SinkOp : Type :=
| send_message (channel text : string)
| set_topic (channel text : string).

Record State : Type := mkState {
  deploys : gmap string OngoingDeploy;
  topic_to_restore : option string;
  calls : list DelayedCall;   (* every call the reactor was handed *)
  now : Z;                    (* datetime.now() / reactor.seconds() *)
  sink : list SinkOp          (* what the bot was asked to do, oldest first *)
}.

Record DeployConfig : Type := mkConfig {
  channel : string;
  deploy_ttl : Z
}.

Definition initial : State :=
  {| deploys := ∅; topic_to_restore := None; calls := [];
     now := 0; sink := [] |}.

(** Field updates of the mutable objects. *)

Definition with_deploys (f : gmap string OngoingDeploy -> gmap string OngoingDeploy)
    (s : State) : State :=
  {| deploys := f (deploys s); topic_to_restore := topic_to_restore s;
     calls := calls s; now := now s; sink := sink s |}.

Definition with_calls (f : list DelayedCall -> list DelayedCall) (s : State) : State :=
  {| deploys := deploys s; topic_to_restore := topic_to_restore s;
     calls := f (calls s); now := now s; sink := sink s |}.

Definition with_topic_to_restore (t : option string) (s : State) : State :=
  {| deploys := deploys s; topic_to_restore := t;
     calls := calls s; now := now s; sink := sink s |}.

Definition with_now (t : Z) (s : State) : State :=
  {| deploys := deploys s; topic_to_restore := topic_to_restore s;
     calls := calls s; now := t; sink := sink s |}.

Definition emit (op : SinkOp) (s : State) : State :=
  {| deploys := deploys s; topic_to_restore := topic_to_restore s;
     calls := calls s; now := now s; sink := sink s ++ [op] |}.

Definition progressed (host : string) (index : Q) (d : OngoingDeploy) : OngoingDeploy :=
  {| deploy_id := deploy_id d; when := when d; who := who d; args := args d;
     log_path := log_path d; quadrant := quadrant d;
     where_ := Some host; completion := Some index;
     host_count := host_count d; expirator := expirator d |}.

Definition next_quadrant (d : OngoingDeploy) : OngoingDeploy :=
  {| deploy_id := deploy_id d; when := when d; who := who d; args := args d;
     log_path := log_path d; quadrant := quadrant d + 1;
     where_ := where_ d; completion := completion d;
     host_count := host_count d; expirator := expirator d |}.

(** ** Python built-ins used by the module *)

Definition dquote : string := String "034"%char EmptyString.

(** Truth value of a [str]: only the empty string is false. *)
Definition truthy (x : string) : bool :=
  match x with EmptyString => false | String _ _ => true end.

(** [float(a) / b]: true division, which raises on a zero divisor. *)
Definition float_div {S} (a : Q) (b : Z) : M S Q :=
  if decide (b = 0) then raise ZeroDivisionError
  else ret (a / inject_Z b)%Q.

Definition Qltb (x y : Q) : bool := negb (Qle_bool y x).

(** ["%d" % x] on a float: the integer part, rounded toward zero. *)
Definition trunc (x : Q) : Z := Z.quot (Qnum x) (Z.pos (Qden x)).

(** ["%d" % n]. *)
Definition fmt_d (n : Z) : string := pretty n.

(** *** Binary64 arithmetic, for the digits of the status line

    A double is a rational or an infinity; an infinity is [None] (its
    sign plays no part below).  [round_double] is the IEEE 754 rounding
    to the nearest double, ties to even, with gradual underflow. *)

Definition round_half_even (x : Q) : Z :=
  let f := Qfloor x in
  match (x - inject_Z f ?= 1 # 2)%Q with
  | Lt => f
  | Gt => f + 1
  | Eq => if Z.even f then f else f + 1
  end.

(** The exponent of [x]: the [e] with [2 ^ e <= |x| < 2 ^ (e + 1)]. *)
Definition ilog2 (x : Q) : Z :=
  let e := Z.log2 (Z.abs (Qnum x)) - Z.log2 (Z.pos (Qden x)) in
  if Qle_bool (2 ^ e) (Qabs x) then e else e - 1.

Definition round_double (x : Q) : option Q :=
  if Qeq_bool x 0 then Some 0%Q
  else
    let quantum := (2 ^ (Z.max (ilog2 x) (-1022) - 52))%Q in
    let y := (inject_Z (round_half_even (x / quantum)) * quantum)%Q in
    if Qle_bool (2 ^ 1024) (Qabs y) then None else Some (Qred y).

(** [float(a) / b] for an integer [b]: [b] is converted to a double,
    which overflows for a huge [b]; a zero divisor raises; the quotient
    is rounded. *)
Definition double_div {S} (a : Q) (b : Z) : M S (option Q) :=
  match round_double (inject_Z b) with
  | None => raise OverflowError
  | Some fb =>
      if Qeq_bool fb 0 then raise ZeroDivisionError
      else ret (round_double (a / fb))
  end.

(** [x * y] for a double [x] and a finite, non-zero [y]. *)
Definition double_mul (x : option Q) (y : Q) : option Q :=
  match x with
  | Some v => round_double (v * y)
  | None => None
  end.

(** ["%d" % x] on a double: the digits of its integer part; an infinity
    has none, which Python 2 reports as a [TypeError] ("a number is
    required"). *)
Definition fmt_d_double {S} (x : option Q) : M S string :=
  match x with
  | Some v => ret (fmt_d (trunc v))
  | None => raise TypeError
  end.

Definition two_digits (n : Z) : string :=
  if n <? 10 then "0" +:+ pretty n else pretty n.

(** [t.strftime("%H:%M")], the instant [t] counted in seconds. *)
Definition strftime_HM (t : Z) : string :=
  two_digits ((t / 3600) mod 24) +:+ ":" +:+ two_digits ((t / 60) mod 60).

(** [s.partition(sep)[0]]: the part of [s] before the first [sep]. *)
Fixpoint partition_head (sep : ascii) (s : string) : string :=
  match s with
  | EmptyString => EmptyString
  | String c rest =>
      if Ascii.eqb c sep then EmptyString else String c (partition_head sep rest)
  end.

(** [sorted(l, key=...)]: a stable sort, written as insertion. *)
Fixpoint insert_by {A} (key : A -> Z) (x : A) (l : list A) : list A :=
  match l with
  | [] => [x]
  | y :: l' => if key x <=? key y then x :: l else y :: insert_by key x l'
  end.

Definition sorted {A} (key : A -> Z) (l : list A) : list A :=
  foldr (insert_by key) [] l.

(** [min(key(d) for d in l)] of a list known to start with [d0]. *)
Definition minimum (d0 : Z) (l : list Z) : Z := foldr Z.min d0 l.

(** [for x in l: body(x)]. *)
Fixpoint for_each {S A} (body : A -> M S unit) (l : list A) : M S unit :=
  match l with
  | [] => ret tt
  | x :: l' => body x ;; for_each body l'
  end.

(** ** The reactor's timer interface *)

(** [reactor.callLater(delay, f, arg)]: a new call, due [delay] seconds
    from now; the handle returned is its position. *)
Definition callLater (delay : Z) (arg : string) : M State nat :=
  fun s =>
    Ok (length (calls s))
       (with_calls (fun cs => (cs ++ [mkCall (now s + delay) arg false false])%list) s).

(** A handle always denotes a call the reactor was handed (calls are kept
    after they ran or were cancelled); a position outside the list is
    treated as a call that already ran. *)
Definition call_active (h : nat) : M State bool :=
  fun s => Ok (from_option active false (calls s !! h)) s.

Definition call_cancel (h : nat) : M State unit :=
  fun s =>
    match calls s !! h with
    | Some c =>
        if cancelled c then Raise AlreadyCancelled s
        else if called c then Raise AlreadyCalled s
        else Ok tt (with_calls <[h := set_cancelled c]> s)
    | None => Raise AlreadyCalled s
    end.

Definition call_delay (h : nat) (secondsLater : Z) : M State unit :=
  fun s =>
    match calls s !! h with
    | Some c =>
        if cancelled c then Raise AlreadyCancelled s
        else if called c then Raise AlreadyCalled s
        else Ok tt (with_calls <[h := add_delay secondsLater c]> s)
    | None => Raise AlreadyCalled s
    end.

(** ** DeployMonitor *)

Section DeployMonitor.

Context (config : DeployConfig).
(** [self.irc.config.nick] *)
Context (nick : string).
(** [utils.pretty_and_accurate_time_span], which is not in the module. *)
Context (pretty_and_accurate_time_span : Z -> string).

(** [self.irc.bot.send_message] and [self.irc.bot.set_topic]. *)
Definition bot_send_message (chan text : string) : M State unit :=
  modify (emit (send_message chan text)).

Definition bot_set_topic (chan text : string) : M State unit :=
  modify (emit (set_topic chan text)).

(** The [status] string of one line of the status query, [float(None)]
    being a [TypeError]. *)
Definition status_suffix (d : OngoingDeploy) : M State string :=
  match where_ d with
  | Some host =>
      if truthy host then
        match completion d with
        | Some index =>
            do q <- double_div index (host_count d);
            let percent := double_mul q (inject_Z 100) in
            do digits <- fmt_d_double percent;
            ret (" (which is on " +:+ host +:+ " -- " +:+
                 digits +:+ "% done)")
        | None => raise TypeError
        end
      else ret EmptyString
  | None => ret EmptyString
  end.

Definition status_line (sender_nick : string) (d : OngoingDeploy)
    (status : string) : string :=
  sender_nick +:+ ", " +:+ who d +:+ " started push " +:+
  dquote +:+ deploy_id d +:+ dquote +:+ status +:+ " at " +:+
  strftime_HM (when d) +:+ " with args " +:+ dquote +:+ args d +:+ dquote +:+
  ". log: " +:+ log_path d.

(** [DeployMonitor.status(irc, sender, channel)]; the body does not use
    its [irc] argument. *)
Definition status (sender chan : string) : M State unit :=
  if decide (chan ≠ channel config) then ret tt
  else
    let reply := bot_send_message chan in
    let sender_nick := partition_head "!"%char sender in
    do s <- get;
    (if decide (deploys s = ∅)
     then reply (sender_nick +:+ ", there are currently no active pushes.")
     else ret tt) ;;
    let ds := sorted when (map_to_list (deploys s)).*2 in
    for_each (fun d =>
                do status <- status_suffix d;
                reply (status_line sender_nick d status)) ds.

(** The callback registered on [irc.topicUpdated]. *)
Definition _topic_changed (user chan topic : string) : M State unit :=
  if decide (chan ≠ channel config) then ret tt
  else if String.prefix ("<" +:+ nick +:+ ">") topic then ret tt
  else modify (with_topic_to_restore (Some topic)).

Definition forgotten_topic : string :=
  "no active pushes (sorry, harold forgot the old topic)".

(** The topic chosen by [_update_topic], from [self.topic_to_restore] and
    [self.deploys.values()]. *)
Definition topic_of (restore : option string) (ds : list OngoingDeploy) : string :=
  match ds with
  | [] =>
      match restore with
      | Some t => if truthy t then t else forgotten_topic
      | None => forgotten_topic
      end
  | [deploy] =>
      "<" +:+ nick +:+ "> " +:+ who deploy +:+ " started push at " +:+
      strftime_HM (when deploy) +:+ " with args: " +:+ args deploy
  | d0 :: _ =>
      let earliest := minimum (when d0) (when <$> ds) in
      "<" +:+ nick +:+ "> " +:+ fmt_d (Z.of_nat (length ds)) +:+
      " pushes running (earliest started at " +:+ strftime_HM earliest +:+
      "). check " +:+ dquote +:+ "status" +:+ dquote +:+ "."
  end.

Definition _update_topic : M State unit :=
  do s <- get;
  bot_set_topic (channel config)
    (topic_of (topic_to_restore s) (map_to_list (deploys s)).*2).

(** The pair [(who, duration)] is [None, None] or both values; it is
    typed as an option of a pair. *)
Definition _remove_deploy (id : string) : M State (option (string * Z)) :=
  do s <- get;
  match deploys s !! id with
  | None => ret None
  | Some deploy =>
      do a <- call_active (expirator deploy);
      (if a then call_cancel (expirator deploy) else ret tt) ;;
      modify (with_deploys (delete id)) ;;
      do s' <- get;
      ret (Some (who deploy, now s' - when deploy))
  end.

Definition onPushBegan (id who_ args_ log_path_ : string) (count : Z)
    : M State unit :=
  do s <- get;
  do h <- callLater (deploy_ttl config) id;
  let deploy :=
    {| deploy_id := id; when := now s; who := who_; args := args_;
       log_path := log_path_; quadrant := 1; where_ := None;
       completion := None; host_count := count; expirator := h |} in
  modify (with_deploys <[id := deploy]>) ;;
  _update_topic ;;
  bot_send_message (channel config)
    (who_ +:+ " started push " +:+ dquote +:+ id +:+ dquote +:+
     " with args " +:+ args_).

(** The announcement of [onPushProgress]. *)
Definition progress_message (d : OngoingDeploy) (id : string) : string :=
  who d +:+ "'s push " +:+ dquote +:+ id +:+ dquote +:+ " is " +:+
  fmt_d (quadrant d * 25) +:+ "% complete.".

Definition onPushProgress (id host : string) (index : Q) : M State unit :=
  do s <- get;
  match deploys s !! id with
  | None => ret tt
  | Some deploy0 =>
      call_delay (expirator deploy0) (deploy_ttl config) ;;
      let deploy := progressed host index deploy0 in
      modify (with_deploys <[id := deploy]>) ;;
      (* don't get spammy for tiny pushes *)
      if host_count deploy <? 8 then ret tt
      else
        do percent <- float_div index (host_count deploy);
        if Qltb percent (inject_Z (quadrant deploy) * (1 # 4)) then ret tt
        else
          bot_send_message (channel config) (progress_message deploy id) ;;
          modify (with_deploys <[id := next_quadrant deploy]>)
  end.

Definition onPushEnded (id : string) : M State unit :=
  do r <- _remove_deploy id;
  match r with
  | None => ret tt
  | Some (who_, duration) =>
      if negb (truthy who_) then ret tt
      else
        bot_send_message (channel config)
          (who_ +:+ "'s push " +:+ dquote +:+ id +:+ dquote +:+
           " complete. Took " +:+ pretty_and_accurate_time_span duration) ;;
        _update_topic
  end.

Definition onPushAborted (id reason : string) : M State unit :=
  do r <- _remove_deploy id;
  match r with
  | None => ret tt
  | Some (who_, duration) =>
      if negb (truthy who_) then ret tt
      else
        bot_send_message (channel config)
          (who_ +:+ "'s push " +:+ dquote +:+ id +:+ dquote +:+
           " aborted (" +:+ reason +:+ ")") ;;
        _update_topic
  end.

(** ** The reactor loop

    Between two requests the reactor runs the delayed calls that are
    due: it marks the call as called and invokes [_remove_deploy] on
    its argument.  [expire h] is that step for the call [h]; it does
    nothing unless the call is still active and due. *)
Definition expire (h : nat) : M State unit :=
  do s <- get;
  match calls s !! h with
  | Some c =>
      if active c && (time c <=? now s) then
        modify (with_calls <[h := set_called c]>) ;;
        _remove_deploy (call_arg c) ;;
        ret tt
      else ret tt
  | None => ret tt
  end.

(** What can happen to a monitor: the four HTTP requests, the IRC
    command and callback, a delayed call running, and time passing. *)
Inductive event : Type :=
| Began (id who_ args_ log_path_ : string) (count : Z)
| Progress (id host : string) (index : Q)
| Ended (id : string)
| Aborted (id reason : string)
| StatusQuery (sender chan : string)
| TopicUpdated (user chan topic : string)
| Expire (h : nat)
| Sleep (seconds : N).

Definition handle (e : event) : M State unit :=
  match e with
  | Began id w a l c => onPushBegan id w a l c
  | Progress id host index => onPushProgress id host index
  | Ended id => onPushEnded id
  | Aborted id reason => onPushAborted id reason
  | StatusQuery sender chan => status sender chan
  | TopicUpdated user chan topic => _topic_changed user chan topic
  | Expire h => expire h
  | Sleep dt => modify (fun s => with_now (now s + Z.of_N dt) s)
  end.

(** Events in sequence, stopping at the first exception. *)
Definition run (es : list event) : M State unit := for_each handle es.

(** The states the monitor can be in: those a sequence of events leads
    to from the initial one.  The process outlives a handler that raises,
    so the state reached at the raise counts as well. *)
Inductive reachable : State -> Prop :=
| reachable_initial : reachable initial
| reachable_step s e : reachable s -> reachable (final (handle e s)).

(** The state a progress request leaves when the push's call is still
    active: the call delayed, the push updated, and past the threshold
    one message and the quadrant advanced. *)
Definition after_progress (id host : string) (index : Q)
    (d : OngoingDeploy) (c : DelayedCall) (s : State) : State :=
  let s1 := with_deploys <[id := progressed host index d]>
              (with_calls <[expirator d := add_delay (deploy_ttl config) c]> s) in
  if host_count d <? 8 then s1
  else if Qltb (index / inject_Z (host_count d)) (inject_Z (quadrant d) * (1 # 4))
       then s1
       else with_deploys <[id := next_quadrant (progressed host index d)]>
              (emit (send_message (channel config)
                       (progress_message (progressed host index d) id)) s1).

End DeployMonitor.

(** ** A concrete monitor, for the examples *)

Definition example_config : DeployConfig :=
  {| channel := "#deploys"; deploy_ttl := 10 |}.

Definition example_time_span (d : Z) : string := pretty d +:+ " seconds".

Definition example_run : list event -> M State unit :=
  run example_config "harold" example_time_span.

(** Alice pushes to ten hosts. *)
Definition began_d1 : event :=
  Began "d1" "alice" "-r all" "/var/log/push/d1" 10.

(** What the bot was asked to do between two states of one execution. *)
Definition emitted_since (before after : State) : list SinkOp :=
  drop (length (sink before)) (sink after).

(** The calls of the reactor that are still to run on behalf of [id]. *)
Definition pending_for (id : string) (s : State) : list DelayedCall :=
  filter (fun c => active c = true /\ call_arg c = id) (calls s).

Definition is_set_topic (op : SinkOp) : bool :=
  match op with set_topic _ _ => true | send_message _ _ => false end.

(** The effect of [if deploy.expirator.active(): deploy.expirator.cancel()]
    on the reactor's calls. *)
Definition cancel_if_active (h : nat) (cs : list DelayedCall) : list DelayedCall :=
  match cs !! h with
  | Some c => if active c then <[h := set_cancelled c]> cs else cs
  | None => cs
  end.

(** Every push of the dictionary owns a call of the reactor that is still
    active and will reap the push's own id. *)
Definition timers_ok (s : State) : Prop :=
  forall id d, deploys s !! id = Some d ->
    exists c, calls s !! expirator d = Some c /\ active c = true /\ call_arg c = id.

(** [s'] differs from [s] at most by messages sent to the channel. *)
Definition only_messages (s s' : State) : Prop :=
  deploys s' = deploys s /\ calls s' = calls s /\ now s' = now s /\
  topic_to_restore s' = topic_to_restore s /\
  exists ops, sink s' = (sink s ++ ops)%list /\
              Forall (fun op => is_set_topic op = false) ops.

(** The requests after which the source calls [_update_topic]. *)
Definition recomputes_topic (e : event) : bool :=
  match e with
  | Began _ _ _ _ _ | Ended _ | Aborted _ _ => true
  | _ => false
  end.

(** No push of the dictionary began after the present instant. *)
Definition clock_ok (s : State) : Prop :=
  forall id d, deploys s !! id = Some d -> when d <= now s.

(** ** The HTTP listeners

    [DeployEndedListener], [DeployAbortedListener] and
    [DeployBeganListener] read their fields from [request.args], a
    dictionary from names to lists of values, and then call the monitor.
    A missing name is a [KeyError], an empty list of values an
    [IndexError], and a count that [int] refuses a [ValueError]; all three
    are raised before the monitor is called. *)

Inductive request_exn : Type :=
| KeyError (key : string)
| IndexError
| ValueError.

Inductive outcome : Type :=
| Rejected (e : request_exn)        (* raised while reading the request *)
| Handled (r : result State unit).  (* the monitor method was called *)

(** [request.args[key][0]] *)
Definition first_arg (args : gmap string (list string)) (key : string)
    : request_exn + string :=
  match args !! key with
  | None => inl (KeyError key)
  | Some [] => inl IndexError
  | Some (v :: _) => inr v
  end.

Definition with_arg (args : gmap string (list string)) (key : string)
    (k : string -> outcome) : outcome :=
  match first_arg args key with
  | inl e => Rejected e
  | inr v => k v
  end.

Section Listeners.

Context (config : DeployConfig) (nick : string)
        (pretty_and_accurate_time_span : Z -> string).
(** Python's [int] on a string: [None] stands for its [ValueError]. *)
Context (int_ : string -> option Z).

(** [DeployBeganListener._handle_request] *)
Definition began_request (args : gmap string (list string)) (s : State) : outcome :=
  with_arg args "id" (fun id =>
  with_arg args "who" (fun who_ =>
  with_arg args "args" (fun args_ =>
  with_arg args "log_path" (fun log_path_ =>
  with_arg args "count" (fun count_ =>
    match int_ count_ with
    | None => Rejected ValueError
    | Some count =>
        Handled (onPushBegan config nick id who_ args_ log_path_ count s)
    end))))).

(** [DeployEndedListener._handle_request] *)
Definition ended_request (args : gmap string (list string)) (s : State) : outcome :=
  with_arg args "id" (fun id =>
    Handled (onPushEnded config nick pretty_and_accurate_time_span id s)).

(** [DeployAbortedListener._handle_request] *)
Definition aborted_request (args : gmap string (list string)) (s : State) : outcome :=
  with_arg args "id" (fun id =>
  with_arg args "reason" (fun reason =>
    Handled (onPushAborted config nick id reason s))).

End Listeners.

(** ** Vocabulary of the further properties *)

(** The channel an operation of the bot is addressed to. *)
Definition channel_of (op : SinkOp) : string :=
  match op with send_message c _ => c | set_topic c _ => c end.

(** A series of progress requests for one id. *)
Definition progress_events (id : string) (l : list (string * Q)) : list event :=
  map (fun p => Progress id p.1 p.2) l.

(** The pushes on which the status query divides by zero: a host is
    recorded and the host count is 0. *)
Definition divides_by_zero (d : OngoingDeploy) : bool :=
  match where_ d with
  | Some host => truthy host && (host_count d =? 0)
  | None => false
  end.

(** What holds of every push of the dictionary: it is stored under its
    own id, its quadrant is at least 1, and its last host and last index
    are recorded together or not at all. *)
Definition deploy_shape_ok (s : State) : Prop :=
  forall id d, deploys s !! id = Some d ->
    deploy_id d = id /\ 1 <= quadrant d /\
    (where_ d = None <-> completion d = None).

(** The magnitudes at which the arithmetic of a status line stays
    finite: a host count of at most 2^53 and a recorded index of at most
    2^1000, in absolute value. *)
Definition ordinary_magnitude (d : OngoingDeploy) : Prop :=
  Z.abs (host_count d) <= 2 ^ 53 /\
  forall index, completion d = Some index -> (Qabs index <= 2 ^ 1000)%Q.

(** * Properties *)

Ltac unfold_monad :=
  unfold bot_send_message, bot_set_topic, call_active, bind, ret, get,
    modify, raise in *; simpl in *.

Section Properties.

Context (config : DeployConfig) (nick : string)
        (pretty_and_accurate_time_span : Z -> string).

Local Abbreviation onPushBegan := (onPushBegan config nick).
Local Abbreviation onPushProgress := (onPushProgress config).
Local Abbreviation onPushEnded := (onPushEnded config nick pretty_and_accurate_time_span).
Local Abbreviation onPushAborted := (onPushAborted config nick).
Local Abbreviation status := (status config).
Local Abbreviation _topic_changed := (_topic_changed config nick).
Local Abbreviation _update_topic := (_update_topic config nick).
Local Abbreviation handle := (handle config nick pretty_and_accurate_time_span).
Local Abbreviation run := (run config nick pretty_and_accurate_time_span).
Local Abbreviation reachable := (reachable config nick pretty_and_accurate_time_span).
Local Abbreviation after_progress := (after_progress config).

(** *** The unknown-id paths *)

Lemma remove_deploy_absent id s :
  deploys s !! id = None -> _remove_deploy id s = Ok None s.
Proof. intros H. unfold _remove_deploy. unfold_monad. by rewrite H. Qed.

Lemma onPushProgress_absent id host index s :
  deploys s !! id = None -> onPushProgress id host index s = Ok tt s.
Proof. intros H. unfold onPushProgress. unfold_monad. by rewrite H. Qed.

Lemma onPushEnded_absent id s :
  deploys s !! id = None -> onPushEnded id s = Ok tt s.
Proof.
  intros H. unfold onPushEnded, bind. by rewrite (remove_deploy_absent _ _ H).
Qed.

Lemma onPushAborted_absent id reason s :
  deploys s !! id = None -> onPushAborted id reason s = Ok tt s.
Proof.
  intros H. unfold onPushAborted, bind. by rewrite (remove_deploy_absent _ _ H).
Qed.

(** *** Progress on a known id *)

Lemma onPushProgress_present id host index d c s :
  deploys s !! id = Some d ->
  calls s !! expirator d = Some c ->
  active c = true ->
  onPushProgress id host index s = Ok tt (after_progress id host index d c s).
Proof.
  intros Hd Hc Ha. unfold onPushProgress, after_progress, call_delay, float_div.
  unfold_monad. rewrite Hd. simpl. rewrite Hc.
  unfold active in Ha. destruct (cancelled c), (called c); try discriminate.
  simpl. destruct (host_count d <? 8) eqn:Hsmall; [done|].
  apply Z.ltb_ge in Hsmall.
  destruct (decide (host_count d = 0)) as [E|_]; [lia|].
  simpl. by destruct (Qltb _ _).
Qed.

(** *** Removal *)

Lemma remove_deploy_present id d s :
  deploys s !! id = Some d ->
  _remove_deploy id s =
    Ok (Some (who d, now s - when d))
       (with_deploys (delete id) (with_calls (cancel_if_active (expirator d)) s)).
Proof.
  intros Hd. unfold _remove_deploy, call_cancel, cancel_if_active.
  unfold_monad. rewrite Hd. simpl.
  unfold with_deploys, with_calls. simpl.
  destruct (calls s !! expirator d) as [c|] eqn:Hc; simpl; [|done].
  destruct (active c) eqn:Ha; simpl; [|done].
  rewrite Hc. unfold active in Ha.
  by destruct (cancelled c), (called c).
Qed.

Lemma cancel_if_active_other h h' cs :
  h <> h' -> cancel_if_active h cs !! h' = cs !! h'.
Proof.
  intros Hne. unfold cancel_if_active.
  destruct (cs !! h) as [c|]; [|done].
  destruct (active c); [|done]. by apply list_lookup_insert_ne.
Qed.

Lemma cancel_if_active_inactive h cs :
  from_option active false (cancel_if_active h cs !! h) = false.
Proof.
  unfold cancel_if_active.
  destruct (cs !! h) as [c|] eqn:Hc; [|by rewrite Hc].
  destruct (active c) eqn:Ha; [|by rewrite Hc].
  rewrite list_lookup_insert_eq by (by eapply lookup_lt_Some).
  unfold active in *. simpl. by destruct (called c).
Qed.

(** *** The status query only writes messages *)

Lemma only_messages_refl s : only_messages s s.
Proof.
  repeat split. exists []. split; [by rewrite app_nil_r | constructor].
Qed.

Lemma only_messages_trans s1 s2 s3 :
  only_messages s1 s2 -> only_messages s2 s3 -> only_messages s1 s3.
Proof.
  intros (Hd & Hc & Hn & Ht & ops & Hs & Hops)
         (Hd' & Hc' & Hn' & Ht' & ops' & Hs' & Hops').
  repeat split; try congruence.
  exists (ops ++ ops')%list. split.
  - by rewrite Hs', Hs, app_assoc.
  - by apply Forall_app.
Qed.

Lemma only_messages_send chan text s :
  only_messages s (emit (send_message chan text) s).
Proof.
  repeat split. exists [send_message chan text]. split; [done|].
  by repeat constructor.
Qed.

Lemma status_suffix_state d s : final (status_suffix d s) = s.
Proof.
  unfold status_suffix, double_div, double_mul, fmt_d_double.
  destruct (where_ d) as [host|]; [|done].
  destruct (truthy host); [|done].
  destruct (completion d) as [index|]; [|done].
  unfold_monad.
  destruct (round_double (inject_Z (host_count d))) as [fb|]; [|done].
  destruct (Qeq_bool fb 0); [done|]. simpl.
  destruct (round_double (index / fb)) as [q|]; [|done].
  by destruct (round_double (q * inject_Z 100)).
Qed.

Lemma status_lines_only_messages sender_nick chan ds : forall s,
  only_messages s
    (final (for_each (fun d =>
                        do st <- status_suffix d;
                        bot_send_message chan (status_line sender_nick d st))
                     ds s)).
Proof.
  induction ds as [|d ds IH]; intros s; simpl.
  - apply only_messages_refl.
  - unfold bind at 1. unfold bind at 1.
    pose proof (status_suffix_state d s) as Hst.
    destruct (status_suffix d s) as [st s1|e s1]; simpl in Hst; subst s1.
    + unfold bot_send_message, modify. simpl.
      eapply only_messages_trans; [apply only_messages_send | apply IH].
    + apply only_messages_refl.
Qed.

Lemma status_only_messages sender chan s :
  only_messages s (final (status sender chan s)).
Proof.
  unfold status.
  destruct (decide (chan <> channel config)); [apply only_messages_refl|].
  unfold bind at 1. unfold get.
  unfold bind at 1.
  destruct (decide (deploys s = ∅)) as [He|He].
  - unfold bot_send_message, modify.
    eapply only_messages_trans; [apply only_messages_send|].
    apply status_lines_only_messages.
  - unfold ret. apply status_lines_only_messages.
Qed.

(** *** A begin request *)

Lemma onPushBegan_ok id w a l count s :
  exists s',
    onPushBegan id w a l count s = Ok tt s' /\
    deploys s' =
      <[id := {| deploy_id := id; when := now s; who := w; args := a;
                 log_path := l; quadrant := 1; where_ := None;
                 completion := None; host_count := count;
                 expirator := length (calls s) |}]> (deploys s) /\
    exists topic,
      sink s' =
        (sink s ++
         [set_topic (channel config) topic;
          send_message (channel config)
            (w +:+ " started push " +:+ dquote +:+ id +:+ dquote +:+
             " with args " +:+ a)])%list.
Proof.
  unfold onPushBegan, _update_topic, callLater. unfold_monad.
  eexists. split; [reflexivity|]. split; [done|].
  eexists. simpl. by rewrite <- app_assoc.
Qed.

(** *** Every live push keeps an active call *)

Lemma timers_ok_frame s s' :
  deploys s' = deploys s -> calls s' = calls s -> timers_ok s -> timers_ok s'.
Proof. unfold timers_ok. intros -> ->. auto. Qed.

Lemma timers_ok_began id w a l count s s' :
  timers_ok s -> onPushBegan id w a l count s = Ok tt s' -> timers_ok s'.
Proof.
  intros Hok. unfold onPushBegan, _update_topic, callLater. unfold_monad.
  intros [= <-]. intros id' d'. simpl.
  destruct (decide (id = id')) as [->|Hne].
  - rewrite lookup_insert_eq. intros [= <-]. simpl.
    eexists. split; [by apply list_lookup_middle|]. done.
  - rewrite lookup_insert_ne by done. intros Hd'.
    destruct (Hok _ _ Hd') as (c & Hc & Ha & Harg).
    exists c. split; [by apply lookup_app_l_Some|]. done.
Qed.

Lemma timers_ok_progress id host index s s' :
  timers_ok s -> onPushProgress id host index s = Ok tt s' -> timers_ok s'.
Proof.
  intros Hok. destruct (deploys s !! id) as [d|] eqn:Hd.
  - destruct (Hok _ _ Hd) as (c & Hc & Ha & Harg).
    rewrite (onPushProgress_present _ _ _ _ _ _ Hd Hc Ha). intros [= <-].
    assert (Hshape : forall id' d', deploys s !! id' = Some d' ->
              exists c', <[expirator d := add_delay (deploy_ttl config) c]> (calls s)
                           !! expirator d' = Some c' /\
                         active c' = true /\ call_arg c' = id').
    { intros id' d' Hd'. destruct (Hok _ _ Hd') as (c' & Hc' & Ha' & Harg').
      destruct (decide (expirator d = expirator d')) as [E|E].
      - rewrite <- E. rewrite list_lookup_insert_eq by (by eapply lookup_lt_Some).
        rewrite <- E, Hc in Hc'. injection Hc' as <-.
        eexists. split; [done|]. done.
      - rewrite list_lookup_insert_ne by done. eauto. }
    assert (Hall : forall d1, expirator d1 = expirator d ->
              forall id' d', <[id := d1]> (deploys s) !! id' = Some d' ->
              exists c', <[expirator d := add_delay (deploy_ttl config) c]> (calls s)
                           !! expirator d' = Some c' /\
                         active c' = true /\ call_arg c' = id').
    { intros d1 Hexp id' d'. destruct (decide (id = id')) as [->|Hne].
      - rewrite lookup_insert_eq. intros [= <-]. rewrite Hexp. by eapply Hshape.
      - rewrite lookup_insert_ne by done. apply Hshape. }
    unfold after_progress, timers_ok.
    destruct (host_count d <? 8); [intros ??; by apply Hall|].
    destruct (Qltb _ _); [intros ??; by apply Hall|].
    intros id' d'. cbn [deploys calls with_deploys with_calls emit].
    rewrite insert_insert_eq. by apply Hall.
  - rewrite (onPushProgress_absent _ _ _ _ Hd). by intros [= <-].
Qed.

Lemma timers_ok_removed id d s :
  timers_ok s -> deploys s !! id = Some d ->
  timers_ok (with_deploys (delete id) (with_calls (cancel_if_active (expirator d)) s)).
Proof.
  intros Hok Hd id' d'. simpl.
  destruct (decide (id = id')) as [->|Hne]; [by rewrite lookup_delete_eq|].
  rewrite lookup_delete_ne by done. intros Hd'.
  destruct (Hok _ _ Hd) as (c & Hc & Ha & Harg).
  destruct (Hok _ _ Hd') as (c' & Hc' & Ha' & Harg').
  exists c'. split; [|done].
  rewrite cancel_if_active_other; [done|].
  intros E. rewrite E in Hc. congruence.
Qed.

Lemma timers_ok_emit op s : timers_ok s -> timers_ok (emit op s).
Proof. by apply timers_ok_frame. Qed.

Lemma timers_ok_ended id s s' :
  timers_ok s -> onPushEnded id s = Ok tt s' -> timers_ok s'.
Proof.
  intros Hok. destruct (deploys s !! id) as [d|] eqn:Hd.
  - unfold onPushEnded, bind at 1. rewrite (remove_deploy_present _ _ _ Hd).
    pose proof (timers_ok_removed _ _ _ Hok Hd) as Hok'.
    destruct (negb (truthy (who d))).
    + by intros [= <-].
    + unfold _update_topic. unfold_monad. intros [= <-].
      by do 2 apply timers_ok_emit.
  - rewrite (onPushEnded_absent _ _ Hd). by intros [= <-].
Qed.

Lemma timers_ok_aborted id reason s s' :
  timers_ok s -> onPushAborted id reason s = Ok tt s' -> timers_ok s'.
Proof.
  intros Hok. destruct (deploys s !! id) as [d|] eqn:Hd.
  - unfold onPushAborted, bind at 1. rewrite (remove_deploy_present _ _ _ Hd).
    pose proof (timers_ok_removed _ _ _ Hok Hd) as Hok'.
    destruct (negb (truthy (who d))).
    + by intros [= <-].
    + unfold _update_topic. unfold_monad. intros [= <-].
      by do 2 apply timers_ok_emit.
  - rewrite (onPushAborted_absent _ _ _ Hd). by intros [= <-].
Qed.

(** *** A delayed call running *)

Lemma expire_due h c s :
  calls s !! h = Some c -> active c = true -> time c <= now s ->
  expire h s =
    Ok tt (let s1 := with_calls <[h := set_called c]> s in
           match deploys s !! call_arg c with
           | Some d => with_deploys (delete (call_arg c))
                         (with_calls (cancel_if_active (expirator d)) s1)
           | None => s1
           end).
Proof.
  intros Hc Ha Hdue. unfold expire. unfold bind at 1. unfold get.
  rewrite Hc, Ha. apply Z.leb_le in Hdue. rewrite Hdue. simpl.
  unfold bind at 1. unfold modify. unfold bind at 1.
  destruct (deploys s !! call_arg c) as [d|] eqn:Hd.
  - by rewrite (remove_deploy_present (call_arg c) d) by done.
  - by rewrite remove_deploy_absent by done.
Qed.

Lemma expire_idle h s :
  (forall c, calls s !! h = Some c -> active c = true -> now s < time c) ->
  expire h s = Ok tt s.
Proof.
  intros Hidle. unfold expire. unfold bind at 1. unfold get.
  destruct (calls s !! h) as [c|] eqn:Hc; [|done].
  destruct (active c) eqn:Ha; [|done].
  specialize (Hidle c eq_refl Ha). apply Z.leb_gt in Hidle.
  by rewrite Hidle.
Qed.

Lemma expire_cases h s :
  expire h s = Ok tt s \/
  exists c, calls s !! h = Some c /\ active c = true /\ time c <= now s.
Proof.
  destruct (calls s !! h) as [c|] eqn:Hc.
  - destruct (active c) eqn:Ha.
    + destruct (Z.le_gt_cases (time c) (now s)) as [Hle|Hgt]; [right; eauto|].
      left. apply expire_idle. intros c' Hc' _. congruence.
    + left. apply expire_idle. congruence.
  - left. apply expire_idle. congruence.
Qed.

Lemma timers_ok_expire h s s' :
  timers_ok s -> expire h s = Ok tt s' -> timers_ok s'.
Proof.
  intros Hok. destruct (expire_cases h s) as [->|(c & Hc & Ha & Hdue)];
    [by intros [= <-]|].
  rewrite (expire_due _ _ _ Hc Ha Hdue). intros [= <-].
  assert (Hother : forall id' d', deploys s !! id' = Some d' ->
            id' <> call_arg c -> h <> expirator d').
  { intros id' d' Hd' Hne E. destruct (Hok _ _ Hd') as (c' & Hc' & _ & Harg').
    rewrite <- E in Hc'. congruence. }
  cbv zeta. destruct (deploys s !! call_arg c) as [d|] eqn:Hd.
  - intros id' d'. cbn [deploys calls with_deploys with_calls].
    destruct (decide (call_arg c = id')) as [<-|Hne];
      [by rewrite lookup_delete_eq|].
    rewrite lookup_delete_ne by done. intros Hd'.
    destruct (Hok _ _ Hd) as (c0 & Hc0 & _ & Harg0).
    destruct (Hok _ _ Hd') as (c' & Hc' & Ha' & Harg').
    exists c'. split; [|done].
    rewrite cancel_if_active_other by (intros E; rewrite E in Hc0; congruence).
    rewrite list_lookup_insert_ne; [done|]. eapply Hother; eauto.
  - intros id' d' Hd'. cbn [deploys calls with_deploys with_calls] in *.
    destruct (Hok _ _ Hd') as (c' & Hc' & Ha' & Harg').
    exists c'. split; [|done].
    rewrite list_lookup_insert_ne; [done|].
    eapply Hother; eauto. intros ->. congruence.
Qed.

Lemma timers_ok_step e s s' :
  timers_ok s -> handle e s = Ok tt s' -> timers_ok s'.
Proof.
  intros Hok. destruct e; simpl.
  - by apply timers_ok_began.
  - by apply timers_ok_progress.
  - by apply timers_ok_ended.
  - by apply timers_ok_aborted.
  - intros Hs. pose proof (status_only_messages sender chan s) as Hm.
    rewrite Hs in Hm. destruct Hm as (Hd & Hc & _).
    by apply (timers_ok_frame s).
  - unfold _topic_changed.
    destruct (decide _); [by intros [= <-]|].
    destruct (String.prefix _ _); by intros [= <-].
  - by apply timers_ok_expire.
  - by intros [= <-].
Qed.

(** On a state that satisfies [timers_ok], only the status query can
    raise. *)
Lemma handle_returns e s :
  timers_ok s ->
  (forall sender chan, e <> StatusQuery sender chan) ->
  exists s', handle e s = Ok tt s'.
Proof.
  intros Hok Hnot. destruct e as
    [id w a l count|id host index|id|id reason|sender chan| |h|];
    unfold handle; cbv beta iota.
  - destruct (onPushBegan_ok id w a l count s) as (s' & Hb & _). eauto.
  - destruct (deploys s !! id) as [d|] eqn:Hd.
    + destruct (Hok _ _ Hd) as (c & Hc & Ha & _).
      rewrite (onPushProgress_present _ _ _ _ _ _ Hd Hc Ha). eauto.
    + rewrite (onPushProgress_absent _ _ _ _ Hd). eauto.
  - destruct (deploys s !! id) as [d|] eqn:Hd.
    + unfold onPushEnded, bind at 1. rewrite (remove_deploy_present _ _ _ Hd).
      destruct (negb (truthy (who d))); [eauto|].
      unfold _update_topic. unfold_monad. eauto.
    + rewrite (onPushEnded_absent _ _ Hd). eauto.
  - destruct (deploys s !! id) as [d|] eqn:Hd.
    + unfold onPushAborted, bind at 1. rewrite (remove_deploy_present _ _ _ Hd).
      destruct (negb (truthy (who d))); [eauto|].
      unfold _update_topic. unfold_monad. eauto.
    + rewrite (onPushAborted_absent _ _ _ Hd). eauto.
  - by destruct (Hnot sender chan).
  - unfold _topic_changed. destruct (decide _); [unfold ret; eauto|].
    destruct (String.prefix _ _); unfold ret, modify; eauto.
  - destruct (expire_cases h s) as [->|(c & Hc & Ha & Hdue)]; [eauto|].
    rewrite (expire_due _ _ _ Hc Ha Hdue). eauto.
  - unfold modify. eauto.
Qed.

Lemma timers_ok_final e s : timers_ok s -> timers_ok (final (handle e s)).
Proof.
  intros Hok. destruct (handle e s) as [[] s'|ex s'] eqn:He; simpl.
  - by eapply timers_ok_step.
  - destruct e as [? ? ? ? ?|? ? ?|?|? ?|sender chan|? ? ?|?|?];
      try (match type of He with
           | handle ?e _ = _ =>
               destruct (handle_returns e s Hok) as (s1 & Hs1);
               [done | congruence]
           end).
    pose proof (status_only_messages sender chan s) as Hm.
    simpl in He. rewrite He in Hm. destruct Hm as (Hd & Hc & _).
    by apply (timers_ok_frame s).
Qed.

Lemma reachable_timers_ok s : reachable s -> timers_ok s.
Proof.
  induction 1 as [|s e _ IH].
  - intros id d. unfold initial. simpl. by rewrite lookup_empty.
  - by apply timers_ok_final.
Qed.

Lemma reachable_ok e s s' :
  reachable s -> handle e s = Ok tt s' -> reachable s'.
Proof.
  intros Hs He. pose proof (reachable_step _ _ _ s e Hs) as Hs'.
  by rewrite He in Hs'.
Qed.

Lemma reachable_run es : forall s s',
  reachable s -> run es s = Ok tt s' -> reachable s'.
Proof.
  induction es as [|e es IH]; intros s s' Hs; simpl.
  - by intros [= <-].
  - unfold run in *. simpl. unfold bind at 1.
    destruct (handle e s) as [[] s1|] eqn:He; [|done].
    apply IH. by eapply reachable_ok.
Qed.

(** On a reachable state every event but the status query returns
    normally. *)
Lemma reachable_handle_returns e s :
  reachable s ->
  (forall sender chan, e <> StatusQuery sender chan) ->
  raised (handle e s) = None.
Proof.
  intros Hs Hnot.
  destruct (handle_returns e s (reachable_timers_ok s Hs) Hnot) as (s' & ->).
  done.
Qed.

(** *** Requests on an id the monitor does not know *)

(** C6. For an id that is not in [self.deploys], a progress, an end and an
    abort request each return normally and leave the whole state as it
    was: the dictionary, the reactor's calls and the bot's output (no
    [send_message], no [set_topic]). *)
Theorem unknown_id_is_ignored id host index reason s :
  deploys s !! id = None ->
  onPushProgress id host index s = Ok tt s /\
  onPushEnded id s = Ok tt s /\
  onPushAborted id reason s = Ok tt s.
Proof.
  intros Hd. split; [|split].
  - by apply onPushProgress_absent.
  - by apply onPushEnded_absent.
  - by apply onPushAborted_absent.
Qed.

(** *** Which paths write to the sink *)

Lemma onPushProgress_final id host index d s :
  deploys s !! id = Some d ->
  final (onPushProgress id host index s) = s \/
  exists c, calls s !! expirator d = Some c /\
            final (onPushProgress id host index s) = after_progress id host index d c s.
Proof.
  intros Hd. destruct (calls s !! expirator d) as [c|] eqn:Hc.
  - destruct (active c) eqn:Ha.
    + right. exists c. split; [done|].
      by rewrite (onPushProgress_present _ _ _ _ _ _ Hd Hc Ha).
    + left. unfold onPushProgress, call_delay. unfold_monad.
      rewrite Hd. simpl. rewrite Hc. unfold active in Ha.
      by destruct (cancelled c), (called c).
  - left. unfold onPushProgress, call_delay. unfold_monad.
    rewrite Hd. simpl. by rewrite Hc.
Qed.

Lemma after_progress_sink id host index d c s :
  exists ops, sink (after_progress id host index d c s) = (sink s ++ ops)%list /\
              Forall (fun op => is_set_topic op = false) ops.
Proof.
  unfold after_progress. cbv zeta.
  destruct (host_count d <? 8);
    [exists []; split; [by rewrite app_nil_r | constructor]|].
  destruct (Qltb _ _);
    [exists []; split; [by rewrite app_nil_r | constructor]|].
  eexists [_]. split; [done|]. by repeat constructor.
Qed.

Lemma onPushProgress_sink id host index s :
  exists ops, sink (final (onPushProgress id host index s)) = (sink s ++ ops)%list /\
              Forall (fun op => is_set_topic op = false) ops.
Proof.
  destruct (deploys s !! id) as [d|] eqn:Hd.
  - destruct (onPushProgress_final id host index d s Hd) as [->|(c & _ & ->)].
    + exists []. split; [by rewrite app_nil_r | constructor].
    + apply after_progress_sink.
  - rewrite (onPushProgress_absent _ _ _ _ Hd). simpl.
    exists []. split; [by rewrite app_nil_r | constructor].
Qed.

Lemma expire_sink h s : sink (final (expire h s)) = sink s.
Proof.
  destruct (expire_cases h s) as [->|(c & Hc & Ha & Hdue)]; [done|].
  rewrite (expire_due _ _ _ Hc Ha Hdue). simpl.
  by destruct (deploys s !! call_arg c).
Qed.

Lemma expire_returns h s : raised (expire h s) = None.
Proof.
  destruct (expire_cases h s) as [->|(c & Hc & Ha & Hdue)]; [done|].
  by rewrite (expire_due _ _ _ Hc Ha Hdue).
Qed.

Lemma expire_removes h c s :
  calls s !! h = Some c -> active c = true -> time c <= now s ->
  deploys (final (expire h s)) !! call_arg c = None.
Proof.
  intros Hc Ha Hdue. rewrite (expire_due _ _ _ Hc Ha Hdue). simpl.
  destruct (deploys s !! call_arg c) eqn:Hd; simpl; [|done].
  apply lookup_delete_eq.
Qed.

(** C7. When a push's delayed call runs, the push is removed from the
    dictionary and the bot is asked nothing (no message, no topic); and
    whatever the state, an event other than a begin, an end or an abort
    request (so a progress request or a delayed call in particular) never
    leads to a [set_topic]. *)
Theorem expiry_is_silent_and_topic_only_on_begin_end_abort :
  (forall h s,
     raised (expire h s) = None /\
     sink (final (expire h s)) = sink s /\
     forall c, calls s !! h = Some c -> active c = true -> time c <= now s ->
               deploys (final (expire h s)) !! call_arg c = None) /\
  (forall e s,
     recomputes_topic e = false ->
     exists ops, sink (final (handle e s)) = (sink s ++ ops)%list /\
                 Forall (fun op => is_set_topic op = false) ops).
Proof.
  split.
  - intros h s. split; [apply expire_returns|].
    split; [apply expire_sink | intros c; apply expire_removes].
  - intros e s He. destruct e; try discriminate; simpl.
    + apply onPushProgress_sink.
    + by destruct (status_only_messages sender chan s) as (_ & _ & _ & _ & Hs).
    + exists []. rewrite app_nil_r. split; [|constructor].
      unfold _topic_changed. destruct (decide _); [done|].
      by destruct (String.prefix _ _).
    + exists []. rewrite app_nil_r. split; [apply expire_sink | constructor].
    + exists []. rewrite app_nil_r. split; [done | constructor].
Qed.

(** *** A push whose initiator is the empty string *)

(** C10. When the push stored under [id] has the empty string as [who],
    an end and an abort request both return normally, delete the push and
    leave its delayed call inactive, but the bot is asked nothing: no
    message is sent and the topic is not recomputed, as for an unknown
    id. *)
Theorem empty_who_is_removed_silently id reason d s :
  deploys s !! id = Some d ->
  who d = EmptyString ->
  exists s',
    onPushEnded id s = Ok tt s' /\
    onPushAborted id reason s = Ok tt s' /\
    deploys s' = delete id (deploys s) /\
    from_option active false (calls s' !! expirator d) = false /\
    sink s' = sink s.
Proof.
  intros Hd Hwho. eexists. split; [|split; [|split; [|split]]].
  - unfold onPushEnded, bind. rewrite (remove_deploy_present _ _ _ Hd).
    rewrite Hwho. simpl. reflexivity.
  - unfold onPushAborted, bind. rewrite (remove_deploy_present _ _ _ Hd).
    rewrite Hwho. simpl. reflexivity.
  - done.
  - apply cancel_if_active_inactive.
  - done.
Qed.

(** *** The threshold notifier *)

Lemma Qltb_true x y : Qltb x y = true <-> (x < y)%Q.
Proof.
  unfold Qltb. rewrite negb_true_iff, <- not_true_iff_false, Qle_bool_iff.
  split; [apply Qnot_le_lt | apply Qlt_not_le].
Qed.


Lemma emitted_since_app s s' ops :
  sink s' = (sink s ++ ops)%list -> emitted_since s s' = ops.
Proof. unfold emitted_since. intros ->. apply drop_app_length. Qed.

(** The push that a progress request leaves under [id]. *)
Lemma after_progress_deploys id host index d c s :
  deploys (after_progress id host index d c s) =
    <[id := if host_count d <? 8 then progressed host index d
            else if Qltb (index / inject_Z (host_count d))
                         (inject_Z (quadrant d) * (1 # 4))
                 then progressed host index d
                 else next_quadrant (progressed host index d)]> (deploys s).
Proof.
  unfold after_progress. cbv zeta.
  destruct (host_count d <? 8); [done|].
  destruct (Qltb _ _); [done|].
  cbn [deploys with_deploys emit with_calls]. apply insert_insert_eq.
Qed.

Lemma after_progress_sink_eq id host index d c s :
  sink (after_progress id host index d c s) =
    (sink s ++
     if host_count d <? 8 then []
     else if Qltb (index / inject_Z (host_count d))
                  (inject_Z (quadrant d) * (1 # 4))
          then []
          else [send_message (channel config)
                  (progress_message (progressed host index d) id)])%list.
Proof.
  unfold after_progress. cbv zeta.
  destruct (host_count d <? 8); [by rewrite app_nil_r|].
  destruct (Qltb _ _); [by rewrite app_nil_r|]. done.
Qed.

Lemma after_progress_calls id host index d c s :
  calls (after_progress id host index d c s) =
    <[expirator d := add_delay (deploy_ttl config) c]> (calls s).
Proof.
  unfold after_progress. cbv zeta.
  destruct (host_count d <? 8); [done|]. by destruct (Qltb _ _).
Qed.

Lemma onPushProgress_reachable id host index d s :
  reachable s -> deploys s !! id = Some d ->
  exists c, calls s !! expirator d = Some c /\ active c = true /\
            onPushProgress id host index s =
              Ok tt (after_progress id host index d c s) /\
            reachable (after_progress id host index d c s).
Proof.
  intros Hs Hd.
  destruct (reachable_timers_ok s Hs _ _ Hd) as (c & Hc & Ha & _).
  exists c. split; [done|]. split; [done|].
  pose proof (onPushProgress_present _ host index _ _ _ Hd Hc Ha) as Hp.
  split; [done|].
  by apply (reachable_ok (Progress id host index) s).
Qed.


(** *** The expiry timer on progress *)

(** What [expirator.delay(deploy_ttl)] does: on a reachable state, a
    progress request for a known id returns normally and leaves the
    push's delayed call active and due [deploy_ttl] seconds after the
    time it was due before the request, whatever the time of the
    request. *)
Theorem progress_postpones_expiry id host index d c s :
  reachable s -> deploys s !! id = Some d ->
  calls s !! expirator d = Some c ->
  exists s' c',
    onPushProgress id host index s = Ok tt s' /\
    calls s' !! expirator d = Some c' /\
    active c' = true /\
    time c' = time c + deploy_ttl config.
Proof.
  intros Hs Hd Hc.
  destruct (onPushProgress_reachable id host index d s Hs Hd)
    as (c0 & Hc0 & Ha & Hp & _).
  assert (c0 = c) as -> by congruence.
  exists (after_progress id host index d c s), (add_delay (deploy_ttl config) c).
  split; [done|]. split; [|done].
  rewrite after_progress_calls.
  apply list_lookup_insert_eq. by eapply lookup_lt_Some.
Qed.

(** *** The quadrant over a push's lifetime *)

Lemma onPushEnded_deploys id s :
  deploys (final (onPushEnded id s)) = delete id (deploys s).
Proof.
  destruct (deploys s !! id) as [d|] eqn:Hd.
  - unfold onPushEnded, bind at 1. rewrite (remove_deploy_present _ _ _ Hd).
    by destruct (negb (truthy (who d))).
  - rewrite (onPushEnded_absent _ _ Hd). simpl. by rewrite delete_id.
Qed.

Lemma onPushAborted_deploys id reason s :
  deploys (final (onPushAborted id reason s)) = delete id (deploys s).
Proof.
  destruct (deploys s !! id) as [d|] eqn:Hd.
  - unfold onPushAborted, bind at 1. rewrite (remove_deploy_present _ _ _ Hd).
    by destruct (negb (truthy (who d))).
  - rewrite (onPushAborted_absent _ _ _ Hd). simpl. by rewrite delete_id.
Qed.

Lemma expire_deploys h s id d :
  deploys (final (expire h s)) !! id = Some d -> deploys s !! id = Some d.
Proof.
  destruct (expire_cases h s) as [->|(c & Hc & Ha & Hdue)]; [done|].
  rewrite (expire_due _ _ _ Hc Ha Hdue). simpl.
  destruct (deploys s !! call_arg c); simpl; [|done].
  by intros [_ ?]%lookup_delete_Some.
Qed.

Lemma percent_below_cap index hosts q :
  8 <= hosts -> 4 < q -> (index <= inject_Z hosts)%Q ->
  Qltb (index / inject_Z hosts) (inject_Z q * (1 # 4)) = true.
Proof.
  intros Hh Hq Hi. apply Qltb_true.
  assert (0 < inject_Z hosts)%Q as Hpos.
  { change 0%Q with (inject_Z 0). rewrite <- Zlt_Qlt. lia. }
  apply Qle_lt_trans with (y := 1%Q).
  - apply Qle_shift_div_r; [done|]. by rewrite Qmult_1_l.
  - assert (inject_Z 5 <= inject_Z q)%Q as H5 by (rewrite <- Zle_Qle; lia).
    apply Qlt_le_trans with (y := (inject_Z 5 * (1 # 4))%Q); [done|].
    apply Qmult_le_compat_r; [done | discriminate].
Qed.

(** C9 (amended). A begin request stores the push with quadrant 1; no
    event on the same push (anything but a new begin for its id) lowers
    the quadrant of a push that stays in the dictionary; and once the
    quadrant is above 4, a progress request whose index is not above the
    number of hosts sends nothing and keeps the quadrant. *)
Theorem quadrant_monotone_and_capped :
  (forall id w a l count s,
     exists s', onPushBegan id w a l count s = Ok tt s' /\
                quadrant <$> deploys s' !! id = Some 1) /\
  (forall e id d d' s,
     (forall w a l count, e <> Began id w a l count) ->
     deploys s !! id = Some d ->
     deploys (final (handle e s)) !! id = Some d' ->
     quadrant d <= quadrant d') /\
  (forall id host index d s,
     deploys s !! id = Some d ->
     4 < quadrant d ->
     (index <= inject_Z (host_count d))%Q ->
     sink (final (onPushProgress id host index s)) = sink s /\
     quadrant <$> deploys (final (onPushProgress id host index s)) !! id
       = Some (quadrant d)).
Proof.
  split; [|split].
  - intros id w a l count s.
    destruct (onPushBegan_ok id w a l count s) as (s' & Hb & Hd & _).
    exists s'. split; [done|]. by rewrite Hd, lookup_insert_eq.
  - intros e id d d' s Hnew Hd. destruct e as
      [id2 w a l count|id2 host index|id2|id2 reason| | |h|];
      unfold handle; cbv beta iota.
    + destruct (onPushBegan_ok id2 w a l count s) as (s' & Hb & Hds & _).
      rewrite Hb. cbn [final]. rewrite Hds.
      rewrite lookup_insert_ne by (intros ->; by eapply Hnew).
      intros Hd'. assert (d' = d) as -> by congruence. lia.
    + destruct (deploys s !! id2) as [d2|] eqn:Hd2.
      * destruct (onPushProgress_final id2 host index d2 s Hd2)
          as [->|(c & _ & ->)].
        { intros Hd'. assert (d' = d) as -> by congruence. lia. }
        rewrite after_progress_deploys.
        destruct (decide (id2 = id)) as [->|Hne].
        -- rewrite lookup_insert_eq. assert (d2 = d) as -> by congruence.
           destruct (host_count d <? 8); [intros [= <-]; simpl; lia|].
           destruct (Qltb _ _); intros [= <-]; simpl; lia.
        -- rewrite lookup_insert_ne by done.
           intros Hd'. assert (d' = d) as -> by congruence. lia.
      * rewrite (onPushProgress_absent _ _ _ _ Hd2). simpl.
        intros Hd'. assert (d' = d) as -> by congruence. lia.
    + rewrite onPushEnded_deploys. intros [_ Hd']%lookup_delete_Some.
      assert (d' = d) as -> by congruence. lia.
    + rewrite onPushAborted_deploys. intros [_ Hd']%lookup_delete_Some.
      assert (d' = d) as -> by congruence. lia.
    + destruct (status_only_messages sender chan s) as (-> & _).
      intros Hd'. assert (d' = d) as -> by congruence. lia.
    + assert (deploys (final (_topic_changed user chan topic s)) = deploys s)
        as ->.
      { unfold _topic_changed. destruct (decide _); [done|].
        by destruct (String.prefix _ _). }
      intros Hd'. assert (d' = d) as -> by congruence. lia.
    + intros Hd'%expire_deploys. assert (d' = d) as -> by congruence. lia.
    + simpl. intros Hd'. assert (d' = d) as -> by congruence. lia.
  - intros id host index d s Hd Hq Hi.
    destruct (onPushProgress_final id host index d s Hd) as [->|(c & _ & ->)].
    { by rewrite Hd. }
    rewrite after_progress_sink_eq, after_progress_deploys, lookup_insert_eq.
    destruct (host_count d <? 8) eqn:Hsmall; [by rewrite app_nil_r|].
    apply Z.ltb_ge in Hsmall.
    rewrite percent_below_cap by done. by rewrite app_nil_r.
Qed.

(** *** Five progress requests on ten hosts *)

Lemma run_nil s : run [] s = Ok tt s.
Proof. done. Qed.

Lemma run_cons e es s s1 :
  handle e s = Ok tt s1 -> run (e :: es) s = run es s1.
Proof. intros He. unfold run. simpl. unfold bind at 1. by rewrite He. Qed.

Lemma progress_chain id host index d s :
  reachable s -> deploys s !! id = Some d ->
  exists s',
    handle (Progress id host index) s = Ok tt s' /\
    reachable s' /\
    deploys s' !! id =
      Some (if host_count d <? 8 then progressed host index d
            else if Qltb (index / inject_Z (host_count d))
                         (inject_Z (quadrant d) * (1 # 4))
                 then progressed host index d
                 else next_quadrant (progressed host index d)) /\
    sink s' =
      (sink s ++
       if host_count d <? 8 then []
       else if Qltb (index / inject_Z (host_count d))
                    (inject_Z (quadrant d) * (1 # 4))
            then []
            else [send_message (channel config)
                    (progress_message (progressed host index d) id)])%list.
Proof.
  intros Hs Hd.
  destruct (onPushProgress_reachable id host index d s Hs Hd)
    as (c & _ & _ & Hp & Hs').
  eexists. split; [exact Hp|]. split; [done|]. split.
  - by rewrite after_progress_deploys, lookup_insert_eq.
  - apply after_progress_sink_eq.
Qed.

(** C4 (amended). From a reachable state, a begin request for ten hosts
    followed by five progress requests with indices 0, 2, 5, 8 and 10
    returns normally each time and announces exactly three thresholds,
    25%, 50% and 75% in that order; the quadrant is 4 afterwards. *)
Theorem five_progress_calls_announce_three id w a l h0 h1 h2 h3 h4 s :
  reachable s ->
  exists s0 s5,
    onPushBegan id w a l 10 s = Ok tt s0 /\
    run [Progress id h0 0; Progress id h1 2; Progress id h2 5;
         Progress id h3 8; Progress id h4 10] s0 = Ok tt s5 /\
    emitted_since s0 s5 =
      [send_message (channel config)
         (w +:+ "'s push " +:+ dquote +:+ id +:+ dquote +:+ " is 25% complete.");
       send_message (channel config)
         (w +:+ "'s push " +:+ dquote +:+ id +:+ dquote +:+ " is 50% complete.");
       send_message (channel config)
         (w +:+ "'s push " +:+ dquote +:+ id +:+ dquote +:+ " is 75% complete.")] /\
    quadrant <$> deploys s5 !! id = Some 4.
Proof.
  intros Hs.
  destruct (onPushBegan_ok id w a l 10 s) as (s0 & Hb & Hds & _).
  assert (reachable s0) as Hs0
    by (by apply (reachable_ok (Began id w a l 10) s)).
  assert (deploys s0 !! id = Some
            {| deploy_id := id; when := now s; who := w; args := a;
               log_path := l; quadrant := 1; where_ := None;
               completion := None; host_count := 10;
               expirator := length (calls s) |}) as Hd0
    by (by rewrite Hds, lookup_insert_eq).
  destruct (progress_chain id h0 0 _ s0 Hs0 Hd0) as (s1 & Hp1 & Hs1 & Hd1 & Hk1).
  cbn in Hd1, Hk1.
  destruct (progress_chain id h1 2 _ s1 Hs1 Hd1) as (s2 & Hp2 & Hs2 & Hd2 & Hk2).
  cbn in Hd2, Hk2.
  destruct (progress_chain id h2 5 _ s2 Hs2 Hd2) as (s3 & Hp3 & Hs3 & Hd3 & Hk3).
  cbn in Hd3, Hk3.
  destruct (progress_chain id h3 8 _ s3 Hs3 Hd3) as (s4 & Hp4 & Hs4 & Hd4 & Hk4).
  cbn in Hd4, Hk4.
  destruct (progress_chain id h4 10 _ s4 Hs4 Hd4) as (s5 & Hp5 & Hs5 & Hd5 & Hk5).
  cbn in Hd5, Hk5.
  exists s0, s5. split; [done|]. split; [|split].
  - rewrite (run_cons _ _ _ _ Hp1), (run_cons _ _ _ _ Hp2),
      (run_cons _ _ _ _ Hp3), (run_cons _ _ _ _ Hp4), (run_cons _ _ _ _ Hp5).
    apply run_nil.
  - apply emitted_since_app.
    rewrite Hk5, Hk4, Hk3, Hk2, Hk1, !app_nil_r, <- !app_assoc. done.
  - by rewrite Hd5.
Qed.

(** *** The clock *)

Lemma handle_now e s :
  now (final (handle e s)) =
    match e with Sleep dt => now s + Z.of_N dt | _ => now s end.
Proof.
  destruct e as
    [id w a l count|id host index|id|id reason|sender chan|user chan topic|h|dt];
    unfold handle; cbv beta iota.
  - unfold onPushBegan, _update_topic, callLater. by unfold_monad.
  - destruct (deploys s !! id) as [d|] eqn:Hd.
    + destruct (onPushProgress_final id host index d s Hd)
        as [->|(c & _ & ->)]; [done|].
      unfold after_progress. cbv zeta.
      destruct (host_count d <? 8); [done|]. by destruct (Qltb _ _).
    + by rewrite (onPushProgress_absent _ _ _ _ Hd).
  - destruct (deploys s !! id) as [d|] eqn:Hd.
    + unfold onPushEnded, bind at 1. rewrite (remove_deploy_present _ _ _ Hd).
      by destruct (negb (truthy (who d))).
    + by rewrite (onPushEnded_absent _ _ Hd).
  - destruct (deploys s !! id) as [d|] eqn:Hd.
    + unfold onPushAborted, bind at 1. rewrite (remove_deploy_present _ _ _ Hd).
      by destruct (negb (truthy (who d))).
    + by rewrite (onPushAborted_absent _ _ _ Hd).
  - by destruct (status_only_messages sender chan s) as (_ & _ & -> & _).
  - unfold _topic_changed. destruct (decide _); [done|].
    by destruct (String.prefix _ _).
  - destruct (expire_cases h s) as [->|(c & Hc & Ha & Hdue)]; [done|].
    rewrite (expire_due _ _ _ Hc Ha Hdue). simpl.
    by destruct (deploys s !! call_arg c).
  - done.
Qed.

Lemma handle_when e s id d' :
  deploys (final (handle e s)) !! id = Some d' ->
  when d' = now s \/ exists d, deploys s !! id = Some d /\ when d = when d'.
Proof.
  destruct e as
    [id2 w a l count|id2 host index|id2|id2 reason|sender chan|user chan topic|h|dt];
    unfold handle; cbv beta iota.
  - destruct (onPushBegan_ok id2 w a l count s) as (s' & Hb & Hds & _).
    rewrite Hb. cbn [final]. rewrite Hds.
    destruct (decide (id2 = id)) as [->|Hne].
    + rewrite lookup_insert_eq. intros [= <-]. by left.
    + rewrite lookup_insert_ne by done. eauto.
  - destruct (deploys s !! id2) as [d2|] eqn:Hd2.
    + destruct (onPushProgress_final id2 host index d2 s Hd2)
        as [->|(c & _ & ->)]; [eauto|].
      rewrite after_progress_deploys.
      destruct (decide (id2 = id)) as [->|Hne].
      * rewrite lookup_insert_eq. intros [= <-]. right. exists d2.
        split; [done|]. destruct (host_count d2 <? 8); [done|].
        by destruct (Qltb _ _).
      * rewrite lookup_insert_ne by done. eauto.
    + rewrite (onPushProgress_absent _ _ _ _ Hd2). eauto.
  - rewrite onPushEnded_deploys. intros [_ Hd']%lookup_delete_Some. eauto.
  - rewrite onPushAborted_deploys. intros [_ Hd']%lookup_delete_Some. eauto.
  - destruct (status_only_messages sender chan s) as (-> & _). eauto.
  - assert (deploys (final (_topic_changed user chan topic s)) = deploys s)
      as ->; [|eauto].
    unfold _topic_changed. destruct (decide _); [done|].
    by destruct (String.prefix _ _).
  - intros Hd'%expire_deploys. eauto.
  - simpl. eauto.
Qed.

Lemma reachable_clock_ok s : reachable s -> clock_ok s.
Proof.
  induction 1 as [|s e _ IH].
  - intros id d. unfold initial. simpl. by rewrite lookup_empty.
  - intros id d' Hd'.
    assert (now s <= now (final (handle e s))) as Hnow
      by (rewrite handle_now; destruct e; lia).
    destruct (handle_when e s id d' Hd') as [->|(d & Hd & <-)]; [done|].
    specialize (IH _ _ Hd). lia.
Qed.

(** *** End and abort of a push with a named initiator *)

Lemma onPushEnded_named id d s :
  reachable s -> deploys s !! id = Some d -> truthy (who d) = true ->
  exists s' topic,
    onPushEnded id s = Ok tt s' /\
    deploys s' = delete id (deploys s) /\
    from_option active false (calls s' !! expirator d) = false /\
    0 <= now s - when d /\
    emitted_since s s' =
      [send_message (channel config)
         (who d +:+ "'s push " +:+ dquote +:+ id +:+ dquote +:+
          " complete. Took " +:+ pretty_and_accurate_time_span (now s - when d));
       set_topic (channel config) topic].
Proof.
  intros Hs Hd Hwho. pose proof (reachable_clock_ok s Hs _ _ Hd) as Hclock.
  do 2 eexists. split; [|split; [|split; [|split]]].
  - unfold onPushEnded, bind at 1. rewrite (remove_deploy_present _ _ _ Hd).
    rewrite Hwho. unfold _update_topic. unfold_monad. reflexivity.
  - done.
  - apply cancel_if_active_inactive.
  - lia.
  - apply emitted_since_app. simpl. by rewrite <- app_assoc.
Qed.

Lemma onPushAborted_named id reason d s :
  deploys s !! id = Some d -> truthy (who d) = true ->
  exists s' topic,
    onPushAborted id reason s = Ok tt s' /\
    deploys s' = delete id (deploys s) /\
    from_option active false (calls s' !! expirator d) = false /\
    emitted_since s s' =
      [send_message (channel config)
         (who d +:+ "'s push " +:+ dquote +:+ id +:+ dquote +:+
          " aborted (" +:+ reason +:+ ")");
       set_topic (channel config) topic].
Proof.
  intros Hd Hwho. do 2 eexists. split; [|split; [|split]].
  - unfold onPushAborted, bind at 1. rewrite (remove_deploy_present _ _ _ Hd).
    rewrite Hwho. unfold _update_topic. unfold_monad. reflexivity.
  - done.
  - apply cancel_if_active_inactive.
  - apply emitted_since_app. simpl. by rewrite <- app_assoc.
Qed.

End Properties.

(** * The properties on a concrete monitor *)

Lemma unknown_id_is_ignored_witness :
  let s := final (example_run
                    [began_d1] initial) in
  onPushProgress example_config "d2" "app-01" 3 s = Ok tt s /\
  onPushEnded example_config "harold" example_time_span "d2" s = Ok tt s /\
  onPushAborted example_config "harold" "d2" "timeout" s = Ok tt s.
Proof.
  intros s.
  apply (unknown_id_is_ignored example_config "harold" example_time_span).
  by vm_compute.
Defined.

Lemma expiry_is_silent_witness :
  let s := final (example_run
                    [began_d1; Sleep 10] initial) in
  sink (final (expire 0 s)) = sink s /\
  deploys (final (expire 0 s)) !! "d1" = None /\
  exists ops,
    sink (final (example_run [Progress "d1" "app-01" 9] s)) = (sink s ++ ops)%list /\
    Forall (fun op => is_set_topic op = false) ops.
Proof.
  intros s.
  destruct (expiry_is_silent_and_topic_only_on_begin_end_abort
              example_config "harold" example_time_span) as [Hexpire Hquiet].
  destruct (Hexpire 0%nat s) as (_ & Hsink & Hgone).
  split; [exact Hsink|]. split.
  - apply (Hgone (mkCall 10 "d1" false false)); by vm_compute.
  - destruct (Hquiet (Progress "d1" "app-01" 9) s eq_refl) as (ops & Hops & Hmsg).
    exists ops. split; [|exact Hmsg].
    unfold example_run, run, for_each. unfold bind at 1.
    by destruct (handle _ _ _ _ s).
Defined.

Lemma empty_who_is_removed_silently_witness :
  let s := final (example_run
                    [Began "d1" EmptyString "-r all" "/var/log/push/d1" 10] initial) in
  exists s',
    onPushEnded example_config "harold" example_time_span "d1" s = Ok tt s' /\
    onPushAborted example_config "harold" "d1" "timeout" s = Ok tt s' /\
    deploys s' = delete "d1" (deploys s) /\
    from_option active false (calls s' !! 0%nat) = false /\
    sink s' = sink s.
Proof.
  intros s.
  apply (empty_who_is_removed_silently
           example_config "harold" example_time_span "d1" "timeout"
           {| deploy_id := "d1"; when := 0; who := EmptyString;
              args := "-r all"; log_path := "/var/log/push/d1"; quadrant := 1;
              where_ := None; completion := None; host_count := 10;
              expirator := 0 |} s).
  - by vm_compute.
  - reflexivity.
Defined.

Lemma example_reachable es s :
  example_run es initial = Ok tt s ->
  reachable example_config "harold" example_time_span s.
Proof. apply reachable_run. constructor. Qed.


(** C2 (defect). A push begun at time 0 with [deploy_ttl] 10 is due at
    10; a progress request at time 3 leaves it due at 20, not at 3 + 10.
    The push then outlives [deploy_ttl] seconds without any event: at
    time 13 its call does not run and the push is still in the
    dictionary.  Every progress request adds a whole [deploy_ttl]: after
    three of them at time 0 the call is due at 40. *)
Theorem progress_is_not_ttl_from_now :
  let s := final (example_run
                    [began_d1; Sleep 3] initial) in
  let s' := final (example_run [Progress "d1" "app-01" 1] s) in
  let idle := final (example_run [Sleep 10; Expire 0] s') in
  let thrice := final (example_run
                         [began_d1; Progress "d1" "app-01" 1;
                          Progress "d1" "app-02" 2; Progress "d1" "app-03" 3]
                         initial) in
  expirator <$> deploys s !! "d1" = Some 0%nat /\
  now s = 3 /\ deploy_ttl example_config = 10 /\
  time <$> calls s !! 0%nat = Some 10 /\
  time <$> calls s' !! 0%nat = Some 20 /\
  time <$> calls s' !! 0%nat <> Some (now s + deploy_ttl example_config) /\
  now idle = now s + deploy_ttl example_config /\
  who <$> deploys idle !! "d1" = Some "alice" /\
  now thrice = 0 /\
  time <$> calls thrice !! 0%nat = Some 40.
Proof. by vm_compute. Qed.

Lemma progress_postpones_expiry_witness :
  let s := final (example_run
                    [began_d1; Sleep 3] initial) in
  exists s' c',
    onPushProgress example_config "d1" "app-01" 1 s = Ok tt s' /\
    calls s' !! 0%nat = Some c' /\
    active c' = true /\
    time c' = 10 + 10.
Proof.
  intros s.
  apply (progress_postpones_expiry
           example_config "harold" example_time_span "d1" "app-01" 1%Q
           {| deploy_id := "d1"; when := 0; who := "alice";
              args := "-r all"; log_path := "/var/log/push/d1"; quadrant := 1;
              where_ := None; completion := None; host_count := 10;
              expirator := 0 |}
           (mkCall 10 "d1" false false) s).
  - apply (example_reachable [began_d1; Sleep 3]). by vm_compute.
  - by vm_compute.
  - by vm_compute.
Defined.

(** C4 (counterexample). With ten hosts, the progress indices 0, 2, 5, 8
    and 10 do not produce the four announcements 25%, 50%, 75%, 100% with
    the quadrant at 5: index 2 is below the first threshold, so the 100%
    announcement is never reached. *)
Lemma five_progress_calls_do_not_announce_four :
  let s0 := final (example_run [began_d1] initial) in
  let s5 := final (example_run
                     [Progress "d1" "app-01" 0; Progress "d1" "app-02" 2;
                      Progress "d1" "app-05" 5; Progress "d1" "app-08" 8;
                      Progress "d1" "app-10" 10] s0) in
  let announce percent :=
    send_message "#deploys"
      ("alice's push " +:+ dquote +:+ "d1" +:+ dquote +:+ " is " +:+
       percent +:+ "% complete.") in
  ~ (emitted_since s0 s5 =
       [announce "25"; announce "50"; announce "75"; announce "100"] /\
     quadrant <$> deploys s5 !! "d1" = Some 5).
Proof. vm_compute. intros [H _]. discriminate H. Qed.

Lemma five_progress_calls_announce_three_witness :
  exists s0 s5,
    onPushBegan example_config "harold" "d1" "alice" "-r all"
      "/var/log/push/d1" 10 initial = Ok tt s0 /\
    example_run
      [Progress "d1" "app-01" 0; Progress "d1" "app-02" 2;
       Progress "d1" "app-05" 5; Progress "d1" "app-08" 8;
       Progress "d1" "app-10" 10] s0 = Ok tt s5 /\
    emitted_since s0 s5 =
      [send_message "#deploys"
         ("alice's push " +:+ dquote +:+ "d1" +:+ dquote +:+ " is 25% complete.");
       send_message "#deploys"
         ("alice's push " +:+ dquote +:+ "d1" +:+ dquote +:+ " is 50% complete.");
       send_message "#deploys"
         ("alice's push " +:+ dquote +:+ "d1" +:+ dquote +:+ " is 75% complete.")] /\
    quadrant <$> deploys s5 !! "d1" = Some 4.
Proof.
  apply (five_progress_calls_announce_three
           example_config "harold" example_time_span).
  apply (example_reachable []). by vm_compute.
Defined.

(** C9 (counterexample). With ten hosts, after the indices 3, 5, 8 and 10
    the quadrant is 5, above 4; a progress request with index 13 still
    sends an announcement, labelled 125%. *)
Lemma announcement_after_quadrant_four :
  let s := final (example_run
                    [began_d1;
                     Progress "d1" "app-03" 3; Progress "d1" "app-05" 5;
                     Progress "d1" "app-08" 8; Progress "d1" "app-10" 10]
                    initial) in
  let s' := final (example_run [Progress "d1" "app-13" 13] s) in
  quadrant <$> deploys s !! "d1" = Some 5 /\
  emitted_since s s' =
    [send_message "#deploys"
       ("alice's push " +:+ dquote +:+ "d1" +:+ dquote +:+ " is 125% complete.")] /\
  quadrant <$> deploys s' !! "d1" = Some 6.
Proof. by vm_compute. Qed.

Lemma quadrant_monotone_and_capped_witness :
  let s := final (example_run
                    [began_d1;
                     Progress "d1" "app-03" 3; Progress "d1" "app-05" 5;
                     Progress "d1" "app-08" 8; Progress "d1" "app-10" 10]
                    initial) in
  let s' := final (onPushProgress example_config "d1" "app-10" 10 s) in
  sink s' = sink s /\ quadrant <$> deploys s' !! "d1" = Some 5.
Proof.
  intros s s'.
  apply (proj2 (proj2 (quadrant_monotone_and_capped
                         example_config "harold" example_time_span))
           "d1" "app-10" 10%Q
           {| deploy_id := "d1"; when := 0; who := "alice";
              args := "-r all"; log_path := "/var/log/push/d1"; quadrant := 5;
              where_ := Some "app-10"; completion := Some 10%Q;
              host_count := 10; expirator := 0 |} s).
  - by vm_compute.
  - by vm_compute.
  - by vm_compute.
Defined.

(** * Defects *)

(** C1 (defect). A second begin request for an id
    that is still in the dictionary does not cancel the first push's
    delayed call: one push is live, two calls for its id are pending, and
    when the first call runs at its own time it reaps the second push,
    five seconds before that push's [deploy_ttl] is over. *)
Theorem second_begin_keeps_stale_timer :
  let s := final (example_run
                    [began_d1; Sleep 5;
                     Began "d1" "bob" "-r app" "/var/log/push/d1b" 10]
                    initial) in
  let s' := final (example_run [Sleep 5; Expire 0] s) in
  who <$> deploys s !! "d1" = Some "bob" /\
  size (deploys s) = 1%nat /\
  pending_for "d1" s =
    [mkCall 10 "d1" false false; mkCall 15 "d1" false false] /\
  now s' = 10 /\
  deploys s' = ∅ /\
  pending_for "d1" s' = [].
Proof. by vm_compute. Qed.

(** C5 (defect). A push begun with the empty
    string as [who] and ended at once is deleted, but the end request
    sends no completion message and does not recompute the topic. *)
Theorem end_of_push_without_who_is_silent :
  let s := final (example_run
                    [Began "d1" EmptyString "-r all" "/var/log/push/d1" 10]
                    initial) in
  let s' := final (example_run [Ended "d1"] s) in
  raised (example_run [Ended "d1"] s) = None /\
  deploys s' = ∅ /\
  emitted_since s s' = [].
Proof. by vm_compute. Qed.

(** C8 (defect). After a push begun with a host
    count of 0 has received a progress request, the status query raises
    [ZeroDivisionError] and sends no line. *)
Theorem status_raises_on_zero_hosts :
  let s := final (example_run
                    [Began "d1" "alice" "-r all" "/var/log/push/d1" 0;
                     Progress "d1" "app-01" 0] initial) in
  raised (example_run [StatusQuery "bob!bob@example.org" "#deploys"] s)
    = Some ZeroDivisionError /\
  emitted_since s
    (final (example_run [StatusQuery "bob!bob@example.org" "#deploys"] s)) = [].
Proof. by vm_compute. Qed.

(** * Further properties of the monitor *)

Section FurtherProperties.

Context (config : DeployConfig) (nick : string)
        (pretty_and_accurate_time_span : Z -> string).

Local Abbreviation onPushBegan := (onPushBegan config nick).
Local Abbreviation onPushProgress := (onPushProgress config).
Local Abbreviation onPushEnded := (onPushEnded config nick pretty_and_accurate_time_span).
Local Abbreviation onPushAborted := (onPushAborted config nick).
Local Abbreviation status := (status config).
Local Abbreviation _topic_changed := (_topic_changed config nick).
Local Abbreviation _update_topic := (_update_topic config nick).
Local Abbreviation topic_of := (topic_of nick).
Local Abbreviation handle := (handle config nick pretty_and_accurate_time_span).
Local Abbreviation run := (run config nick pretty_and_accurate_time_span).
Local Abbreviation reachable := (reachable config nick pretty_and_accurate_time_span).
Local Abbreviation after_progress := (after_progress config).

(** *** Where a push of the dictionary comes from *)

Lemma topic_changed_deploys user chan topic s :
  deploys (final (_topic_changed user chan topic s)) = deploys s.
Proof.
  unfold _topic_changed. destruct (decide _); [done|].
  by destruct (String.prefix _ _).
Qed.

Lemma handle_deploy_origin e s id d' :
  deploys (final (handle e s)) !! id = Some d' ->
  deploys s !! id = Some d' \/
  (exists w a l count,
     e = Began id w a l count /\
     d' = {| deploy_id := id; when := now s; who := w; args := a;
             log_path := l; quadrant := 1; where_ := None;
             completion := None; host_count := count;
             expirator := length (calls s) |}) \/
  (exists d host index,
     e = Progress id host index /\ deploys s !! id = Some d /\
     (d' = progressed host index d \/
      d' = next_quadrant (progressed host index d))).
Proof.
  destruct e as
    [id2 w a l count|id2 host index|id2|id2 reason|sender chan|user chan topic|h|dt];
    unfold handle; cbv beta iota.
  - destruct (onPushBegan_ok config nick id2 w a l count s) as (s' & Hb & Hds & _).
    rewrite Hb. cbn [final]. rewrite Hds.
    destruct (decide (id2 = id)) as [->|Hne].
    + rewrite lookup_insert_eq. intros [= <-]. right. left. by exists w, a, l, count.
    + rewrite lookup_insert_ne by done. by left.
  - destruct (deploys s !! id2) as [d2|] eqn:Hd2.
    + destruct (onPushProgress_final config id2 host index d2 s Hd2)
        as [->|(c & _ & ->)]; [by left|].
      rewrite after_progress_deploys.
      destruct (decide (id2 = id)) as [->|Hne].
      * rewrite lookup_insert_eq. intros [= <-]. right. right.
        exists d2, host, index. split; [done|]. split; [done|].
        destruct (host_count d2 <? 8); [by left|].
        destruct (Qltb _ _); [by left | by right].
      * rewrite lookup_insert_ne by done. by left.
    + rewrite (onPushProgress_absent _ _ _ _ _ Hd2). by left.
  - rewrite onPushEnded_deploys. intros [_ Hd']%lookup_delete_Some. by left.
  - rewrite onPushAborted_deploys. intros [_ Hd']%lookup_delete_Some. by left.
  - destruct (status_only_messages config sender chan s) as (-> & _). by left.
  - rewrite topic_changed_deploys. by left.
  - intros Hd'%expire_deploys. by left.
  - simpl. by left.
Qed.

Lemma deploy_shape_invariant s : reachable s -> deploy_shape_ok s.
Proof.
  induction 1 as [|s e _ IH].
  - intros id d. unfold initial. simpl. by rewrite lookup_empty.
  - intros id d' Hd'.
    destruct (handle_deploy_origin e s id d' Hd')
      as [Hd|[(w & a & l & count & _ & ->)|(d & host & index & _ & Hd & Hd'')]].
    + by apply IH.
    + simpl. split; [done|]. split; [lia|done].
    + destruct (IH _ _ Hd) as (Hid & Hq & _).
      destruct Hd'' as [-> | ->]; simpl; (split; [done|]); (split; [lia|done]).
Qed.

(** X1. On every reachable state each push is stored under its own id,
    has a quadrant of at least 1, and has its last host and its last
    index recorded together or not at all. *)
Theorem reachable_deploy_shape s : reachable s -> deploy_shape_ok s.
Proof. apply deploy_shape_invariant. Qed.

(** *** The ids of the dictionary *)

(** X2. The effect of each event on the set of ids in the dictionary,
    whatever the state and whether or not the handler raises: a begin
    adds its id, an end and an abort remove theirs, a delayed call that
    is active and due removes the id it was scheduled for, and nothing
    else (progress, status, topic callback, time) changes the set. *)
Theorem registry_keys e s :
  dom (deploys (final (handle e s))) =
    match e with
    | Began id _ _ _ _ => {[id]} ∪ dom (deploys s)
    | Ended id | Aborted id _ => dom (deploys s) ∖ {[id]}
    | Expire h =>
        match calls s !! h with
        | Some c =>
            if active c && (time c <=? now s)
            then dom (deploys s) ∖ {[call_arg c]}
            else dom (deploys s)
        | None => dom (deploys s)
        end
    | _ => dom (deploys s)
    end.
Proof.
  destruct e as
    [id w a l count|id host index|id|id reason|sender chan|user chan topic|h|dt];
    unfold handle; cbv beta iota.
  - destruct (onPushBegan_ok config nick id w a l count s) as (s' & Hb & Hds & _).
    rewrite Hb. cbn [final]. rewrite Hds. apply dom_insert_L.
  - destruct (deploys s !! id) as [d|] eqn:Hd.
    + destruct (onPushProgress_final config id host index d s Hd)
        as [->|(c & _ & ->)]; [done|].
      rewrite after_progress_deploys. by apply dom_insert_lookup_L.
    + by rewrite (onPushProgress_absent _ _ _ _ _ Hd).
  - rewrite onPushEnded_deploys. apply dom_delete_L.
  - rewrite onPushAborted_deploys. apply dom_delete_L.
  - by destruct (status_only_messages config sender chan s) as (-> & _).
  - by rewrite topic_changed_deploys.
  - destruct (calls s !! h) as [c|] eqn:Hc;
      [|rewrite expire_idle; [done | congruence]].
    destruct (active c) eqn:Ha;
      [|rewrite expire_idle; [done | congruence]].
    destruct (time c <=? now s) eqn:Hdue; simpl.
    + apply Z.leb_le in Hdue. rewrite (expire_due _ _ _ Hc Ha Hdue). simpl.
      destruct (deploys s !! call_arg c) eqn:Hd; simpl.
      * apply dom_delete_L.
      * by rewrite <- dom_delete_L, delete_id.
    + apply Z.leb_gt in Hdue. rewrite expire_idle; [done|].
      intros c' Hc' _. congruence.
  - done.
Qed.

(** *** Progress bookkeeping *)


(** X4. A push of fewer than eight hosts is never announced: on a
    reachable state, any series of progress requests for it returns
    normally, leaves the bot's output as it was and keeps the quadrant. *)
Theorem small_pushes_are_never_announced id l : forall d s,
  reachable s -> deploys s !! id = Some d -> host_count d < 8 ->
  exists s',
    run (progress_events id l) s = Ok tt s' /\
    sink s' = sink s /\
    quadrant <$> deploys s' !! id = Some (quadrant d).
Proof.
  induction l as [|[host index] l IH]; intros d s Hs Hd Hsmall.
  - exists s. split; [done|]. split; [done|]. by rewrite Hd.
  - destruct (progress_chain config nick pretty_and_accurate_time_span
                id host index d s Hs Hd) as (s1 & Hp & Hs1 & Hd1 & Hk1).
    apply Z.ltb_lt in Hsmall. rewrite Hsmall in Hd1, Hk1.
    rewrite app_nil_r in Hk1.
    destruct (IH (progressed host index d) s1 Hs1 Hd1) as (s' & Hr & Hk & Hq).
    { simpl. by apply Z.ltb_lt. }
    exists s'. split; [|split].
    + simpl. by rewrite (run_cons _ _ _ _ _ _ _ Hp).
    + congruence.
    + done.
Qed.

(** *** Channels other than the configured one *)

(** X5. A status query and a topic notification for a channel other than
    the configured one return normally and change nothing: no reply, no
    remembered topic. *)
Theorem other_channels_are_ignored sender user chan topic s :
  chan <> channel config ->
  status sender chan s = Ok tt s /\
  _topic_changed user chan topic s = Ok tt s.
Proof.
  intros Hne. unfold status, _topic_changed.
  by destruct (decide (chan <> channel config)).
Qed.

(** *** End and abort, repeated or followed by the timer *)

(** X6. End and abort are idempotent: after an end or an abort of [id],
    whatever the state before, a further end or abort of [id] returns
    normally and changes nothing (no second message). *)
Theorem end_and_abort_are_idempotent id reason reason' s :
  let s1 := final (onPushEnded id s) in
  let s2 := final (onPushAborted id reason s) in
  onPushEnded id s1 = Ok tt s1 /\ onPushAborted id reason' s1 = Ok tt s1 /\
  onPushEnded id s2 = Ok tt s2 /\ onPushAborted id reason' s2 = Ok tt s2.
Proof.
  intros s1 s2.
  assert (deploys s1 !! id = None) as H1
    by (unfold s1; rewrite onPushEnded_deploys; apply lookup_delete_eq).
  assert (deploys s2 !! id = None) as H2
    by (unfold s2; rewrite onPushAborted_deploys; apply lookup_delete_eq).
  split; [by apply onPushEnded_absent|].
  split; [by apply onPushAborted_absent|].
  split; [by apply onPushEnded_absent | by apply onPushAborted_absent].
Qed.

Lemma removed_call_is_idle id d s :
  deploys s !! id = Some d ->
  let s1 := with_deploys (delete id)
              (with_calls (cancel_if_active (expirator d)) s) in
  forall s2, calls s2 = calls s1 -> expire (expirator d) s2 = Ok tt s2.
Proof.
  intros Hd s1 s2 Hc. apply expire_idle. intros c Hc2 Ha.
  pose proof (cancel_if_active_inactive (expirator d) (calls s)) as Hin.
  rewrite Hc in Hc2. simpl in Hc2. rewrite Hc2 in Hin. simpl in Hin. congruence.
Qed.

(** X7. The delayed call of a push that was ended or aborted never runs:
    however long the reactor waits afterwards, running the push's call
    changes nothing. *)
Theorem timer_of_removed_push_never_fires id reason d dt s :
  deploys s !! id = Some d ->
  let s1 := final (run [Ended id; Sleep dt] s) in
  let s2 := final (run [Aborted id reason; Sleep dt] s) in
  handle (Expire (expirator d)) s1 = Ok tt s1 /\
  handle (Expire (expirator d)) s2 = Ok tt s2.
Proof.
  intros Hd s1 s2. split.
  - apply (removed_call_is_idle id d s Hd).
    unfold s1, run. simpl. unfold bind at 1.
    unfold onPushEnded, bind at 1.
    rewrite (remove_deploy_present _ _ _ Hd).
    by destruct (negb (truthy (who d))).
  - apply (removed_call_is_idle id d s Hd).
    unfold s2, run. simpl. unfold bind at 1.
    unfold onPushAborted, bind at 1.
    rewrite (remove_deploy_present _ _ _ Hd).
    by destruct (negb (truthy (who d))).
Qed.

(** *** A begin followed by an end *)

Lemma cancel_last cs c :
  active c = true ->
  cancel_if_active (length cs) (cs ++ [c]) = (cs ++ [set_cancelled c])%list.
Proof.
  intros Ha. unfold cancel_if_active.
  rewrite list_lookup_middle by done. rewrite Ha.
  rewrite insert_app_r_alt by done. by rewrite Nat.sub_diag.
Qed.

(** X8. A begin for an id that is not in the dictionary, by a named
    initiator, followed at once by an end for that id: both return
    normally, the dictionary is as it was before the begin, the delayed
    call scheduled by the begin is left cancelled, and the bot is asked,
    in this order, for a topic, the started message, the completion
    message with a duration of zero, and the topic computed from the
    dictionary as it was before. *)
Theorem begin_then_end_restores_registry id w a l count s :
  deploys s !! id = None -> truthy w = true ->
  exists s2 topic1,
    run [Began id w a l count; Ended id] s = Ok tt s2 /\
    deploys s2 = deploys s /\
    calls s2 =
      (calls s ++ [mkCall (now s + deploy_ttl config) id true false])%list /\
    emitted_since s s2 =
      [set_topic (channel config) topic1;
       send_message (channel config)
         (w +:+ " started push " +:+ dquote +:+ id +:+ dquote +:+
          " with args " +:+ a);
       send_message (channel config)
         (w +:+ "'s push " +:+ dquote +:+ id +:+ dquote +:+
          " complete. Took " +:+ pretty_and_accurate_time_span 0);
       set_topic (channel config)
         (topic_of (topic_to_restore s) (map_to_list (deploys s)).*2)].
Proof.
  intros Hfresh Hw.
  set (d := {| deploy_id := id; when := now s; who := w; args := a;
               log_path := l; quadrant := 1; where_ := None;
               completion := None; host_count := count;
               expirator := length (calls s) |}).
  set (c := mkCall (now s + deploy_ttl config) id false false).
  set (t1 := topic_of (topic_to_restore s)
               (map_to_list (<[id := d]> (deploys s))).*2).
  set (s1 := emit (send_message (channel config)
                     (w +:+ " started push " +:+ dquote +:+ id +:+ dquote +:+
                      " with args " +:+ a))
               (emit (set_topic (channel config) t1)
                  (with_deploys <[id := d]>
                     (with_calls (fun cs => (cs ++ [c])%list) s)))).
  assert (handle (Began id w a l count) s = Ok tt s1) as Hb by reflexivity.
  assert (deploys s1 !! id = Some d) as Hd by apply lookup_insert_eq.
  eexists. exists t1. split.
  - rewrite (run_cons _ _ _ _ _ _ _ Hb).
    unfold run, for_each, handle. unfold bind at 1.
    unfold onPushEnded. unfold bind at 1.
    rewrite (remove_deploy_present _ _ _ Hd).
    change (who d) with w. rewrite Hw. cbn [negb].
    unfold _update_topic. unfold_monad. reflexivity.
  - simpl. split; [by apply delete_insert_id|]. split.
    + by rewrite cancel_last.
    + apply emitted_since_app. simpl. rewrite Z.sub_diag.
      rewrite delete_insert_id by done. by rewrite <- !app_assoc.
Qed.

(** X9. When the push that ends or is aborted is the only one of the
    dictionary and has a named initiator, the bot is sent the message
    and then the topic to restore: the remembered topic when there is a
    non-empty one, the fixed apology otherwise. *)
Theorem end_of_last_push_restores_topic id reason d s :
  deploys s = {[id := d]} -> truthy (who d) = true ->
  let restored :=
    match topic_to_restore s with
    | Some t => if truthy t then t else forgotten_topic
    | None => forgotten_topic
    end in
  emitted_since s (final (onPushEnded id s)) =
    [send_message (channel config)
       (who d +:+ "'s push " +:+ dquote +:+ id +:+ dquote +:+
        " complete. Took " +:+ pretty_and_accurate_time_span (now s - when d));
     set_topic (channel config) restored] /\
  emitted_since s (final (onPushAborted id reason s)) =
    [send_message (channel config)
       (who d +:+ "'s push " +:+ dquote +:+ id +:+ dquote +:+
        " aborted (" +:+ reason +:+ ")");
     set_topic (channel config) restored] /\
  deploys (final (onPushEnded id s)) = ∅ /\
  deploys (final (onPushAborted id reason s)) = ∅.
Proof.
  intros Hone Hw restored.
  assert (deploys s !! id = Some d) as Hd by (rewrite Hone; apply lookup_singleton_eq).
  rewrite onPushEnded_deploys, onPushAborted_deploys, Hone, delete_singleton_eq.
  split; [|split]; [| |done].
  - unfold onPushEnded, bind at 1. rewrite (remove_deploy_present _ _ _ Hd).
    rewrite Hw. unfold _update_topic. unfold_monad.
    apply emitted_since_app. simpl.
    rewrite Hone, delete_singleton_eq, map_to_list_empty.
    by rewrite <- app_assoc.
  - unfold onPushAborted, bind at 1. rewrite (remove_deploy_present _ _ _ Hd).
    rewrite Hw. unfold _update_topic. unfold_monad.
    apply emitted_since_app. simpl.
    rewrite Hone, delete_singleton_eq, map_to_list_empty.
    by rewrite <- app_assoc.
Qed.

(** *** The topic and its echo *)

Lemma prefix_cons a p q :
  String.prefix p q = true -> String.prefix (String a p) (String a q) = true.
Proof. intros H. simpl. by destruct (ascii_dec a a). Qed.

Lemma prefix_tag rest :
  String.prefix ("<" +:+ nick +:+ ">") ("<" +:+ nick +:+ "> " +:+ rest) = true.
Proof.
  simpl. destruct (ascii_dec "<" "<"); [|done].
  induction nick as [|a n IH]; [done|].
  simpl. by destruct (ascii_dec a a).
Qed.

Lemma topic_of_tagged restore ds :
  ds <> [] -> String.prefix ("<" +:+ nick +:+ ">") (topic_of restore ds) = true.
Proof.
  intros Hne. destruct ds as [|d0 [|d1 ds]]; [done| |]; apply prefix_tag.
Qed.

(** X10. While the dictionary is not empty, the topic that
    [_update_topic] sets carries the bot's own tag, so when IRC reports
    that topic back on the configured channel [_topic_changed] does not
    remember it, whatever the state then. *)
Theorem own_topic_is_not_remembered user s s' :
  deploys s <> ∅ ->
  exists topic,
    _update_topic s = Ok tt (emit (set_topic (channel config) topic) s) /\
    _topic_changed user (channel config) topic s' = Ok tt s'.
Proof.
  intros Hne. eexists. split; [reflexivity|].
  unfold _topic_changed.
  destruct (decide (channel config <> channel config)); [done|].
  rewrite topic_of_tagged; [done|].
  intros Hnil. apply Hne. apply map_to_list_empty_iff.
  by apply fmap_nil_inv in Hnil.
Qed.

Lemma minimum_le d0 l : minimum d0 l <= d0.
Proof. induction l as [|x l IH]; simpl; lia. Qed.

Lemma minimum_lower_bound d0 l x : x ∈ l -> minimum d0 l <= x.
Proof.
  induction l as [|y l IH]; [by intros ?%elem_of_nil|].
  intros [->|Hin]%elem_of_cons; simpl; [lia|]. specialize (IH Hin). lia.
Qed.

Lemma minimum_attained d0 l : minimum d0 l = d0 \/ minimum d0 l ∈ l.
Proof.
  induction l as [|y l IH]; [by left|]. simpl.
  destruct (Z.min_spec y (minimum d0 l)) as [[_ ->]|[_ ->]].
  - right. apply elem_of_cons. by left.
  - destruct IH as [->|Hin]; [by left|]. right. apply elem_of_cons. by right.
Qed.

(** X11. With two pushes or more in the dictionary, the topic that
    [_update_topic] sets gives the number of pushes and the start time
    of the earliest one: an instant at which some push of the dictionary
    began and before which none did. *)
Theorem topic_of_several_pushes s :
  (2 <= size (deploys s))%nat ->
  exists earliest,
    _update_topic s =
      Ok tt (emit (set_topic (channel config)
                     ("<" +:+ nick +:+ "> " +:+
                      fmt_d (Z.of_nat (size (deploys s))) +:+
                      " pushes running (earliest started at " +:+
                      strftime_HM earliest +:+ "). check " +:+
                      dquote +:+ "status" +:+ dquote +:+ ".")) s) /\
    (exists id d, deploys s !! id = Some d /\ when d = earliest) /\
    (forall id d, deploys s !! id = Some d -> earliest <= when d).
Proof.
  intros Hsize.
  assert (forall d, d ∈ (map_to_list (deploys s)).*2 <->
                    exists id, deploys s !! id = Some d) as Hel.
  { intros d. rewrite list_elem_of_fmap. split.
    - intros ([id d'] & -> & Hin). exists id. by apply elem_of_map_to_list.
    - intros (id & Hd). exists (id, d). split; [done|].
      by apply elem_of_map_to_list. }
  assert (length (map_to_list (deploys s)).*2 = size (deploys s)) as Hlen
    by (by rewrite length_fmap, length_map_to_list).
  unfold _update_topic. unfold_monad. unfold topic_of.
  destruct ((map_to_list (deploys s)).*2) as [|d0 [|d1 ds]] eqn:Hds;
    simpl in Hlen; [lia|lia|].
  exists (minimum (when d0) (when <$> d0 :: d1 :: ds)).
  split; [by rewrite <- Hlen|]. split.
  - destruct (minimum_attained (when d0) (when <$> d0 :: d1 :: ds)) as [E|Hin].
    + destruct (proj1 (Hel d0)) as (id & Hd); [apply elem_of_cons; by left|].
      by exists id, d0.
    + apply list_elem_of_fmap in Hin as (d & E & Hin).
      destruct (proj1 (Hel d) Hin) as (id & Hd). by exists id, d.
  - intros id d Hd. apply minimum_lower_bound.
    apply list_elem_of_fmap. exists d. split; [done|]. apply Hel. by exists id.
Qed.

(** *** The status query *)

Lemma partition_head_app sep n rest :
  ~ In sep (list_ascii_of_string n) ->
  partition_head sep (n +:+ String sep rest) = n.
Proof.
  induction n as [|a n IH]; simpl; intros Hnot.
  - by rewrite Ascii.eqb_refl.
  - destruct (Ascii.eqb a sep) eqn:E.
    + apply Ascii.eqb_eq in E. destruct Hnot. by left.
    + f_equal. apply IH. intros Hin. apply Hnot. by right.
Qed.

(** X12. With no push in the dictionary, a status query on the
    configured channel from [nick!user@host] returns normally and sends
    exactly one line, addressed to the part of the sender before the
    first exclamation mark. *)
Theorem status_without_pushes n rest s :
  deploys s = ∅ ->
  ~ In "!"%char (list_ascii_of_string n) ->
  status (n +:+ String "!" rest) (channel config) s =
    Ok tt (emit (send_message (channel config)
                   (n +:+ ", there are currently no active pushes.")) s).
Proof.
  intros Hempty Hn. unfold status.
  destruct (decide (channel config <> channel config)); [done|].
  rewrite partition_head_app by done. unfold_monad.
  destruct (decide (deploys s = ∅)); [|done].
  by rewrite Hempty, map_to_list_empty.
Qed.

(** Rounding to a double moves a number by at most half its size (and
    a half), and does not overflow below 2^1010. *)

Lemma pow2_pos e : (0 < 2 ^ e)%Q.
Proof. apply Qpower_0_lt. reflexivity. Qed.

Lemma pow2_nat (k : Z) : 0 <= k -> (2 ^ k == inject_Z (2 ^ k))%Q.
Proof. intros Hk. symmetry. apply (Zpower_Qpower 2 k Hk). Qed.

Lemma inject_Z_pos z : 0 < z -> (0 < inject_Z z)%Q.
Proof. intros Hz. unfold Qlt. simpl. lia. Qed.

Lemma ilog2_lower x : ~ (x == 0)%Q -> (2 ^ ilog2 x <= Qabs x)%Q.
Proof.
  intros Hx. unfold ilog2.
  set (n := Z.abs (Qnum x)). set (d := Z.pos (Qden x)).
  set (a := Z.log2 n). set (b := Z.log2 d).
  destruct (Qle_bool (2 ^ (a - b)) (Qabs x)) eqn:E.
  - apply Qle_bool_iff. exact E.
  - assert (0 < n) as Hn.
    { unfold n. destruct x as [[|p|p] q]; simpl; try lia.
      destruct Hx. reflexivity. }
    assert (0 < d) as Hd by (unfold d; lia).
    destruct (Z.log2_spec n Hn) as [Ha _].
    destruct (Z.log2_spec d Hd) as [_ Hb].
    fold a in Ha. fold b in Hb.
    assert (0 <= a) as Ha0 by apply Z.log2_nonneg.
    assert (0 <= b) as Hb0 by apply Z.log2_nonneg.
    assert (Qabs x == inject_Z n / inject_Z d)%Q as ->.
    { destruct x as [p q]. unfold n, d. simpl Qnum. simpl Qden.
      rewrite <- Qmake_Qdiv. symmetry. apply Zabs_Qabs. }
    replace (a - b - 1) with (a - (b + 1)) by lia.
    rewrite Qpower_minus by discriminate.
    rewrite (pow2_nat a Ha0), (pow2_nat (b + 1)) by lia.
    apply Qle_shift_div_l; [apply inject_Z_pos; lia|].
    assert (0 < inject_Z (2 ^ (b + 1)))%Q as HP
      by (apply inject_Z_pos; apply Z.pow_pos_nonneg; lia).
    setoid_replace (inject_Z (2 ^ a) / inject_Z (2 ^ (b + 1)) * inject_Z d)%Q
      with (inject_Z (2 ^ a) * inject_Z d / inject_Z (2 ^ (b + 1)))%Q
      using relation Qeq by (field; intros H0; rewrite H0 in HP; discriminate HP).
    apply Qle_shift_div_r.
    + exact HP.
    + rewrite <- !inject_Z_mult, <- Zle_Qle.
      replace (Z.succ b) with (b + 1) in Hb by lia. nia.
Qed.

Lemma round_half_even_close x :
  (Qabs (inject_Z (round_half_even x) - x) <= 1)%Q.
Proof.
  pose proof (Qfloor_le x) as Hlo. pose proof (Qlt_floor x) as Hhi.
  rewrite inject_Z_plus in Hhi.
  apply Qabs_Qle_condition. unfold round_half_even.
  destruct (x - inject_Z (Qfloor x) ?= 1 # 2)%Q;
    [destruct (Z.even (Qfloor x))| |];
    rewrite ?inject_Z_plus; change (inject_Z 1) with 1%Q in *; split; lra.
Qed.

Lemma quantum_small x :
  ~ (x == 0)%Q ->
  (2 ^ (Z.max (ilog2 x) (-1022) - 52) <= Qabs x * (1 # 2) + (1 # 2))%Q /\
  ((1 <= Qabs x)%Q ->
   (2 ^ (Z.max (ilog2 x) (-1022) - 52) <= Qabs x * (1 # 2))%Q).
Proof.
  intros Hx. pose proof (ilog2_lower x Hx) as Hlow.
  pose proof (Qabs_nonneg x) as Hnn.
  assert (2 ^ (-52) <= 1 # 2)%Q as H52 by (vm_compute; discriminate).
  assert (2 ^ (-1022 - 52) <= 1 # 2)%Q as Hsub by (vm_compute; discriminate).
  assert (0 < 2 ^ (-52))%Q as Hp52 by apply pow2_pos.
  destruct (Z.max_spec (ilog2 x) (-1022)) as [[_ ->]|[_ ->]].
  - split; [lra|]. intros H1. lra.
  - replace (ilog2 x - 52) with (ilog2 x + -52) by lia.
    rewrite Qpower_plus by discriminate.
    assert (2 ^ ilog2 x * 2 ^ (-52) <= Qabs x * (1 # 2))%Q as Hq.
    { apply Qmult_le_compat_nonneg; split;
        [apply Qlt_le_weak, pow2_pos | exact Hlow
        | apply Qlt_le_weak, pow2_pos | exact H52]. }
    split; [lra|]. intros _. exact Hq.
Qed.

Lemma round_double_spec x :
  (Qabs x <= 2 ^ 1010)%Q ->
  exists y,
    round_double x = Some y /\
    (Qabs (y - x) <= Qabs x * (1 # 2) + (1 # 2))%Q /\
    ((1 <= Qabs x)%Q -> (Qabs (y - x) <= Qabs x * (1 # 2))%Q).
Proof.
  intros Hx. unfold round_double. pose proof (Qabs_nonneg x) as Hnn.
  destruct (Qeq_bool x 0) eqn:E.
  - apply Qeq_bool_iff in E. exists 0%Q. split; [reflexivity|].
    assert (Qabs (0 - x) == 0)%Q as H0 by (rewrite E; reflexivity).
    assert (Qabs x == 0)%Q as H1 by (rewrite E; reflexivity).
    split; [lra|]. intros. lra.
  - apply Qeq_bool_neq in E.
    destruct (quantum_small x E) as [Hq1 Hq2].
    set (q := (2 ^ (Z.max (ilog2 x) (-1022) - 52))%Q) in *.
    assert (0 < q)%Q as Hq0 by apply pow2_pos.
    set (m := round_half_even (x / q)).
    assert (Qabs (inject_Z m * q - x) <= q)%Q as Hclose.
    { setoid_replace (inject_Z m * q - x)%Q with ((inject_Z m - x / q) * q)%Q
        using relation Qeq by (field; lra).
      rewrite Qabs_Qmult, (Qabs_pos q) by lra.
      pose proof (round_half_even_close (x / q)) as Hm. fold m in Hm.
      apply Qle_trans with (1 * q)%Q; [apply Qmult_le_compat_r; lra|].
      rewrite Qmult_1_l. apply Qle_refl. }
    assert ((3 # 2) * 2 ^ 1010 + (1 # 2) < 2 ^ 1024)%Q as Hbig
      by (vm_compute; reflexivity).
    assert (Qabs (inject_Z m * q) < 2 ^ 1024)%Q as Hfin.
    { pose proof (Qabs_triangle (inject_Z m * q - x) x) as Ht.
      setoid_replace (inject_Z m * q - x + x)%Q with (inject_Z m * q)%Q
        using relation Qeq in Ht by ring.
      set (B := (2 ^ 1010)%Q) in *. set (T := (2 ^ 1024)%Q) in *. lra. }
    destruct (Qle_bool (2 ^ 1024) (Qabs (inject_Z m * q))) eqn:Ht.
    { apply Qle_bool_iff in Ht. lra. }
    eexists. split; [reflexivity|].
    rewrite Qred_correct. split; [lra|]. intros H1. specialize (Hq2 H1). lra.
Qed.

(** A non-zero host count of ordinary size becomes a double of at
    least a half in absolute value. *)
Lemma round_hosts (n : Z) :
  n <> 0 -> Z.abs n <= 2 ^ 53 ->
  exists fb, round_double (inject_Z n) = Some fb /\ ((1 # 2) <= Qabs fb)%Q.
Proof.
  intros Hn Hsize.
  assert (Qabs (inject_Z n) == inject_Z (Z.abs n))%Q as Habs by reflexivity.
  assert (1 <= Qabs (inject_Z n))%Q as H1.
  { rewrite Habs. change 1%Q with (inject_Z 1). rewrite <- Zle_Qle. lia. }
  assert (Qabs (inject_Z n) <= 2 ^ 1010)%Q as Hbound.
  { rewrite Habs. apply Qle_trans with (inject_Z (2 ^ 53)).
    - by rewrite <- Zle_Qle.
    - vm_compute. discriminate. }
  destruct (round_double_spec _ Hbound) as (fb & Hfb & _ & Hclose).
  exists fb. split; [done|]. specialize (Hclose H1).
  pose proof (Qabs_triangle_reverse (inject_Z n) (inject_Z n - fb)) as Ht.
  setoid_replace (inject_Z n - (inject_Z n - fb))%Q with fb
    using relation Qeq in Ht by ring.
  rewrite (Qabs_Qminus (inject_Z n) fb) in Ht. lra.
Qed.

(** The digits of a status line exist for an index of ordinary size
    and a divisor of at least a half. *)
Lemma percent_is_finite index fb :
  (Qabs index <= 2 ^ 1000)%Q -> ((1 # 2) <= Qabs fb)%Q ->
  exists p, double_mul (round_double (index / fb)) (inject_Z 100) = Some p.
Proof.
  intros Hindex Hfb.
  assert (Qabs (index / fb) <= 2 * 2 ^ 1000)%Q as Hq.
  { unfold Qdiv. rewrite Qabs_Qmult, Qabs_Qinv.
    apply Qle_shift_div_r; [lra|].
    pose proof (Qabs_nonneg index).
    set (B := (2 ^ 1000)%Q) in *. nra. }
  assert (2 * 2 ^ 1000 <= 2 ^ 1010)%Q as Hc1 by (vm_compute; discriminate).
  destruct (round_double_spec (index / fb)) as (q & -> & Hclose & _); [lra|].
  simpl.
  assert (Qabs q <= 3 * 2 ^ 1000 + (1 # 2))%Q as Hq'.
  { pose proof (Qabs_triangle (q - index / fb) (index / fb)) as Ht.
    setoid_replace (q - index / fb + index / fb)%Q with q
      using relation Qeq in Ht by ring.
    set (B := (2 ^ 1000)%Q) in *. lra. }
  assert (100 * (3 * 2 ^ 1000 + (1 # 2)) <= 2 ^ 1010)%Q as Hc2
    by (vm_compute; discriminate).
  destruct (round_double_spec (q * inject_Z 100)) as (p & -> & _); [|by eexists].
  rewrite Qabs_Qmult. change (Qabs (inject_Z 100)) with 100%Q.
  set (B := (2 ^ 1000)%Q) in *. set (T := (2 ^ 1010)%Q) in *. lra.
Qed.

Lemma status_suffix_cases d :
  (where_ d = None <-> completion d = None) ->
  ordinary_magnitude d ->
  (divides_by_zero d = true /\
   forall s0, status_suffix d s0 = Raise ZeroDivisionError s0) \/
  (divides_by_zero d = false /\
   exists st, forall s0, status_suffix d s0 = Ok st s0).
Proof.
  intros Hshape [Hhosts Hindex].
  unfold status_suffix, divides_by_zero, double_div, fmt_d_double.
  destruct (where_ d) as [host|] eqn:Hw; [|right; split; [done|]; by eexists].
  destruct (truthy host); [|right; split; [done|]; by eexists].
  destruct (completion d) as [index|] eqn:Hc;
    [|by pose proof (proj2 Hshape eq_refl)].
  unfold_monad. destruct (decide (host_count d = 0)) as [E|E].
  - left. by rewrite E.
  - right. split; [by apply Z.eqb_neq in E; rewrite E|].
    destruct (round_hosts (host_count d) E Hhosts) as (fb & -> & Hfb).
    assert (Qeq_bool fb 0 = false) as ->.
    { destruct (Qeq_bool fb 0) eqn:E0; [|done].
      apply Qeq_bool_iff in E0. rewrite E0 in Hfb. by vm_compute in Hfb. }
    destruct (percent_is_finite index fb (Hindex _ eq_refl) Hfb) as (p & Hp).
    simpl. rewrite Hp. by eexists.
Qed.

Lemma status_lines_sent sender_nick chan ds :
  Forall (fun d => (where_ d = None <-> completion d = None) /\
                   ordinary_magnitude d /\
                   divides_by_zero d = false) ds ->
  forall s, exists s' lines,
    for_each (fun d =>
                do st <- status_suffix d;
                bot_send_message chan (status_line sender_nick d st)) ds s
      = Ok tt s' /\
    sink s' = (sink s ++ (send_message chan <$> lines))%list /\
    Forall2 (fun d line =>
               exists st, (forall s0, status_suffix d s0 = Ok st s0) /\
                          line = status_line sender_nick d st)
            ds lines.
Proof.
  induction 1 as [|d ds (Hshape & Hsize & Hok) _ IH]; intros s.
  - exists s, []. split; [done|]. split; [by rewrite app_nil_r | constructor].
  - destruct (status_suffix_cases d Hshape Hsize) as [[Hbad _]|[_ [st Hst]]];
      [congruence|].
    destruct (IH (emit (send_message chan (status_line sender_nick d st)) s))
      as (s' & lines & Hrun & Hsink & Hlines).
    exists s', (status_line sender_nick d st :: lines).
    split; [|split].
    + simpl. unfold bind at 1. unfold bind at 1. by rewrite Hst.
    + rewrite Hsink. simpl. by rewrite <- app_assoc.
    + constructor; [by exists st | done].
Qed.

Lemma status_lines_raise sender_nick chan ds :
  Forall (fun d => (where_ d = None <-> completion d = None) /\
                   ordinary_magnitude d) ds ->
  Exists (fun d => divides_by_zero d = true) ds ->
  forall s,
    raised (for_each (fun d =>
                        do st <- status_suffix d;
                        bot_send_message chan (status_line sender_nick d st))
                     ds s) = Some ZeroDivisionError.
Proof.
  induction 1 as [|d ds [Hshape Hsize] _ IH]; intros Hex s;
    [by apply Exists_nil in Hex|].
  simpl. unfold bind at 1. unfold bind at 1.
  destruct (status_suffix_cases d Hshape Hsize) as [[_ Hraise]|[Hok [st Hst]]].
  - by rewrite Hraise.
  - rewrite Hst. apply IH. apply Exists_cons in Hex as [Hbad|Hex]; [congruence|done].
Qed.

Lemma insert_by_perm {A} (key : A -> Z) x l : insert_by key x l ≡ₚ x :: l.
Proof.
  induction l as [|y l IH]; simpl; [done|].
  destruct (key x <=? key y); [done|]. rewrite IH. apply Permutation_swap.
Qed.

Lemma sorted_perm {A} (key : A -> Z) l : sorted key l ≡ₚ l.
Proof.
  induction l as [|x l IH]; simpl; [done|].
  unfold sorted in *. simpl. by rewrite insert_by_perm, IH.
Qed.

Lemma insert_by_sorted {A} (key : A -> Z) x l :
  StronglySorted (fun a b => key a <= key b) l ->
  StronglySorted (fun a b => key a <= key b) (insert_by key x l).
Proof.
  induction 1 as [|y l Hl IH Hy]; simpl; [by repeat constructor|].
  destruct (key x <=? key y) eqn:E.
  - apply Z.leb_le in E. constructor; [by constructor|].
    constructor; [done|]. eapply Forall_impl; [exact Hy|]. simpl. lia.
  - apply Z.leb_gt in E. constructor; [done|].
    rewrite insert_by_perm. constructor; [lia | done].
Qed.

Lemma sorted_sorted {A} (key : A -> Z) l :
  StronglySorted (fun a b => key a <= key b) (sorted key l).
Proof.
  induction l as [|x l IH]; [constructor|].
  unfold sorted in *. simpl. by apply insert_by_sorted.
Qed.

Lemma sorted_values_ok (P : OngoingDeploy -> Prop) s :
  (forall id d, deploys s !! id = Some d -> P d) ->
  Forall P (sorted when (map_to_list (deploys s)).*2).
Proof.
  intros HP. rewrite sorted_perm. apply Forall_forall. intros d Hin.
  apply list_elem_of_fmap in Hin as ([id d'] & -> & Hin).
  apply elem_of_map_to_list in Hin. by eapply HP.
Qed.

(** X13. On a reachable state whose pushes have host counts of at most
    2^53 and recorded indices of at most 2^1000 in absolute value, a
    status query on the configured channel raises exactly when some push
    of the dictionary has a host recorded and a host count of 0, and the
    exception is then a [ZeroDivisionError]; otherwise it returns
    normally. *)
Theorem status_raises_iff_zero_hosts sender s :
  reachable s ->
  (forall id d, deploys s !! id = Some d -> ordinary_magnitude d) ->
  ((exists id d, deploys s !! id = Some d /\ divides_by_zero d = true) ->
   raised (status sender (channel config) s) = Some ZeroDivisionError) /\
  ((forall id d, deploys s !! id = Some d -> divides_by_zero d = false) ->
   raised (status sender (channel config) s) = None).
Proof.
  intros Hs Hsize. pose proof (deploy_shape_invariant s Hs) as Hshape.
  unfold status.
  destruct (decide (channel config <> channel config)); [done|].
  split.
  - intros (id & d & Hd & Hbad).
    unfold bind at 1. unfold get. unfold bind at 1.
    assert (Exists (fun d => divides_by_zero d = true)
                   (sorted when (map_to_list (deploys s)).*2)) as Hex.
    { rewrite sorted_perm. apply Exists_exists. exists d. split; [|done].
      apply list_elem_of_fmap. exists (id, d). split; [done|].
      by apply elem_of_map_to_list. }
    destruct (decide (deploys s = ∅)) as [E|_].
    { rewrite E in Hd. by rewrite lookup_empty in Hd. }
    unfold ret. apply status_lines_raise; [|done].
    apply sorted_values_ok. intros id' d' Hd'.
    destruct (Hshape _ _ Hd') as (_ & _ & ?). split; [done|]. by eapply Hsize.
  - intros Hgood.
    unfold bind at 1. unfold get. unfold bind at 1.
    assert (Forall (fun d => (where_ d = None <-> completion d = None) /\
                             ordinary_magnitude d /\
                             divides_by_zero d = false)
                   (sorted when (map_to_list (deploys s)).*2)) as Hall.
    { apply sorted_values_ok. intros id' d' Hd'.
      destruct (Hshape _ _ Hd') as (_ & _ & ?). split; [done|].
      split; [by eapply Hsize | by eapply Hgood]. }
    destruct (decide (deploys s = ∅)).
    + unfold bot_send_message, modify.
      by edestruct (status_lines_sent (partition_head "!" sender) (channel config)
                      _ Hall) as (s' & lines & -> & _).
    + unfold ret.
      by edestruct (status_lines_sent (partition_head "!" sender) (channel config)
                      _ Hall) as (s' & lines & -> & _).
Qed.

(** X14. On a reachable state with at least one push, whose pushes have
    host counts of at most 2^53 and recorded indices of at most 2^1000
    in absolute value, and none of which has a host recorded and a host
    count of 0, a status query on the configured channel returns
    normally and sends exactly one line per push of the dictionary, in
    the order of their start times; each line is the line of its push,
    with the percentage that [status_suffix] computes in binary64. *)
Theorem status_lists_pushes_by_start_time sender s :
  reachable s -> deploys s <> ∅ ->
  (forall id d, deploys s !! id = Some d -> ordinary_magnitude d) ->
  (forall id d, deploys s !! id = Some d -> divides_by_zero d = false) ->
  exists s' ds lines,
    status sender (channel config) s = Ok tt s' /\
    ds ≡ₚ (map_to_list (deploys s)).*2 /\
    StronglySorted (fun a b => when a <= when b) ds /\
    emitted_since s s' = send_message (channel config) <$> lines /\
    length lines = size (deploys s) /\
    Forall2 (fun d line =>
               exists st,
                 (forall s0, status_suffix d s0 = Ok st s0) /\
                 line = status_line (partition_head "!" sender) d st)
            ds lines.
Proof.
  intros Hs Hne Hsize Hgood. pose proof (deploy_shape_invariant s Hs) as Hshape.
  assert (Forall (fun d => (where_ d = None <-> completion d = None) /\
                           ordinary_magnitude d /\
                           divides_by_zero d = false)
                 (sorted when (map_to_list (deploys s)).*2)) as Hall.
  { apply sorted_values_ok. intros id' d' Hd'.
    destruct (Hshape _ _ Hd') as (_ & _ & ?). split; [done|].
    split; [by eapply Hsize | by eapply Hgood]. }
  destruct (status_lines_sent (partition_head "!" sender) (channel config)
              _ Hall s) as (s' & lines & Hrun & Hsink & Hlines).
  exists s', (sorted when (map_to_list (deploys s)).*2), lines.
  split; [|split; [|split; [|split; [|split]]]].
  - unfold status.
    destruct (decide (channel config <> channel config)); [done|].
    unfold bind at 1. unfold get. unfold bind at 1.
    by destruct (decide (deploys s = ∅)).
  - apply sorted_perm.
  - apply sorted_sorted.
  - by apply emitted_since_app.
  - rewrite <- (Forall2_length _ _ _ Hlines), sorted_perm.
    by rewrite length_fmap, length_map_to_list.
  - done.
Qed.

(** *** Where the bot writes *)

Lemma status_lines_to_channel sender_nick chan ds : forall s,
  exists ops,
    sink (final (for_each (fun d =>
                   do st <- status_suffix d;
                   bot_send_message chan (status_line sender_nick d st)) ds s))
      = (sink s ++ ops)%list /\
    Forall (fun op => channel_of op = chan) ops.
Proof.
  induction ds as [|d ds IH]; intros s; simpl.
  - exists []. split; [by rewrite app_nil_r | constructor].
  - unfold bind at 1. unfold bind at 1.
    pose proof (status_suffix_state d s) as Hst.
    destruct (status_suffix d s) as [st s1|e s1]; simpl in Hst; subst s1.
    + destruct (IH (emit (send_message chan (status_line sender_nick d st)) s))
        as (ops & Hk & Hops).
      exists (send_message chan (status_line sender_nick d st) :: ops).
      split; [|by constructor].
      etransitivity; [exact Hk|]. simpl. by rewrite <- app_assoc.
    + exists []. split; [by rewrite app_nil_r | constructor].
Qed.

Lemma handle_writes_to_channel e s :
  exists ops,
    sink (final (handle e s)) = (sink s ++ ops)%list /\
    Forall (fun op => channel_of op = channel config) ops.
Proof.
  assert (exists ops, sink s = (sink s ++ ops)%list /\
            Forall (fun op => channel_of op = channel config) ops) as Hnone
    by (exists []; split; [by rewrite app_nil_r | constructor]).
  destruct e as
    [id w a l count|id host index|id|id reason|sender chan|user chan topic|h|dt];
    unfold handle; cbv beta iota.
  - destruct (onPushBegan_ok config nick id w a l count s)
      as (s' & Hb & _ & topic & Hsink).
    rewrite Hb. eexists. split; [exact Hsink|]. by repeat constructor.
  - destruct (deploys s !! id) as [d|] eqn:Hd.
    + destruct (onPushProgress_final config id host index d s Hd)
        as [->|(c & _ & ->)]; [done|].
      rewrite after_progress_sink_eq.
      destruct (host_count d <? 8); [by rewrite app_nil_r|].
      destruct (Qltb _ _); [by rewrite app_nil_r|].
      eexists. split; [done|]. by repeat constructor.
    + by rewrite (onPushProgress_absent _ _ _ _ _ Hd).
  - destruct (deploys s !! id) as [d|] eqn:Hd.
    + unfold onPushEnded, bind at 1. rewrite (remove_deploy_present _ _ _ Hd).
      destruct (negb (truthy (who d))); [done|].
      unfold _update_topic. unfold_monad. rewrite <- app_assoc.
      eexists. split; [done|]. by repeat constructor.
    + by rewrite (onPushEnded_absent _ _ _ _ _ Hd).
  - destruct (deploys s !! id) as [d|] eqn:Hd.
    + unfold onPushAborted, bind at 1. rewrite (remove_deploy_present _ _ _ Hd).
      destruct (negb (truthy (who d))); [done|].
      unfold _update_topic. unfold_monad. rewrite <- app_assoc.
      eexists. split; [done|]. by repeat constructor.
    + by rewrite (onPushAborted_absent _ _ _ _ _ Hd).
  - unfold status. destruct (decide (chan <> channel config)) as [|Heq]; [done|].
    apply dec_stable in Heq. subst chan.
    unfold bind at 1. unfold get. unfold bind at 1.
    destruct (decide (deploys s = ∅)).
    + destruct (status_lines_to_channel (partition_head "!" sender)
                  (channel config)
                  (sorted when (map_to_list (deploys s)).*2)
                  (emit (send_message (channel config)
                           (partition_head "!" sender +:+
                            ", there are currently no active pushes.")) s))
        as (ops & Hk & Hops).
      eexists (_ :: ops). split;
        [etransitivity; [exact Hk|]; simpl; by rewrite <- app_assoc|].
      by constructor.
    + unfold ret. apply status_lines_to_channel.
  - unfold _topic_changed. destruct (decide _); [done|].
    by destruct (String.prefix _ _).
  - by rewrite expire_sink.
  - done.
Qed.

(** X15. The bot is never asked to write anywhere but to the configured
    channel: on every reachable state, every message sent and every
    topic set so far is addressed to [config.channel]. *)
Theorem bot_writes_only_to_configured_channel s :
  reachable s ->
  Forall (fun op => channel_of op = channel config) (sink s).
Proof.
  induction 1 as [|s e _ IH]; [constructor|].
  destruct (handle_writes_to_channel e s) as (ops & -> & Hops).
  by apply Forall_app.
Qed.

(** *** When a push's own call is due *)

Lemma cancel_if_active_time h (cs : list DelayedCall) h' c' :
  cancel_if_active h cs !! h' = Some c' ->
  exists c0, cs !! h' = Some c0 /\ time c0 = time c'.
Proof.
  unfold cancel_if_active. destruct (cs !! h) as [c|] eqn:Hc; [|by eauto].
  destruct (active c); [|by eauto].
  intros [[-> [<- _]]|[_ ?]]%list_lookup_insert_Some; eauto.
Qed.

Lemma set_called_time (h : nat) c (cs : list DelayedCall) (h' : nat) c' :
  cs !! h = Some c ->
  <[h := set_called c]> cs !! h' = Some c' ->
  exists c0, cs !! h' = Some c0 /\ time c0 = time c'.
Proof.
  intros Hc [[-> [<- _]]|[_ ?]]%list_lookup_insert_Some; eauto.
Qed.

Lemma call_time_origin e s h c' :
  0 <= deploy_ttl config ->
  calls (final (handle e s)) !! h = Some c' ->
  (exists c0, calls s !! h = Some c0 /\ time c0 <= time c') \/
  (calls s !! h = None /\ time c' = now s + deploy_ttl config).
Proof.
  intros Httl.
  assert (forall cs : list DelayedCall, cs !! h = Some c' ->
            (exists c0, cs !! h = Some c0 /\ time c0 <= time c') \/
            (cs !! h = None /\ time c' = now s + deploy_ttl config)) as Hsame
    by (intros cs Hc; left; exists c'; split; [done | lia]).
  assert (forall c0, time c0 = time c' -> time c0 <= time c') as Hle
    by (intros; lia).
  destruct e as
    [id w a l count|id host index|id|id reason|sender chan|user chan topic|h0|dt];
    unfold handle; cbv beta iota.
  - change (calls (final (onPushBegan id w a l count s)))
      with (calls s ++ [mkCall (now s + deploy_ttl config) id false false])%list.
    intros [?|[Hge Hlast]]%lookup_app_Some; [by apply Hsame|].
    right. split; [by apply lookup_ge_None|].
    destruct (h - length (calls s))%nat; [|done].
    by injection Hlast as <-.
  - destruct (deploys s !! id) as [d|] eqn:Hd.
    + destruct (onPushProgress_final config id host index d s Hd)
        as [->|(c & Hc & ->)]; [by apply Hsame|].
      rewrite after_progress_calls.
      intros [[<- [<- _]]|[_ ?]]%list_lookup_insert_Some; [|by apply Hsame].
      left. exists c. split; [done|]. simpl. lia.
    + rewrite (onPushProgress_absent _ _ _ _ _ Hd). by apply Hsame.
  - destruct (deploys s !! id) as [d|] eqn:Hd.
    + assert (calls (final (onPushEnded id s))
              = cancel_if_active (expirator d) (calls s)) as ->.
      { unfold onPushEnded, bind at 1. rewrite (remove_deploy_present _ _ _ Hd).
        by destruct (negb (truthy (who d))). }
      intros (c0 & Hc0 & Ht)%cancel_if_active_time. left. eauto.
    + rewrite (onPushEnded_absent _ _ _ _ _ Hd). by apply Hsame.
  - destruct (deploys s !! id) as [d|] eqn:Hd.
    + assert (calls (final (onPushAborted id reason s))
              = cancel_if_active (expirator d) (calls s)) as ->.
      { unfold onPushAborted, bind at 1. rewrite (remove_deploy_present _ _ _ Hd).
        by destruct (negb (truthy (who d))). }
      intros (c0 & Hc0 & Ht)%cancel_if_active_time. left. eauto.
    + rewrite (onPushAborted_absent _ _ _ _ _ Hd). by apply Hsame.
  - destruct (status_only_messages config sender chan s) as (_ & -> & _).
    by apply Hsame.
  - assert (calls (final (_topic_changed user chan topic s)) = calls s) as ->.
    { unfold _topic_changed. destruct (decide _); [done|].
      by destruct (String.prefix _ _). }
    by apply Hsame.
  - destruct (expire_cases h0 s) as [->|(c & Hc & Ha & Hdue)]; [by apply Hsame|].
    rewrite (expire_due _ _ _ Hc Ha Hdue). cbv zeta.
    destruct (deploys s !! call_arg c) as [d|]; simpl.
    + intros (c1 & Hc1 & Ht1)%cancel_if_active_time.
      destruct (set_called_time _ _ _ _ _ Hc Hc1) as (c0 & Hc0 & Ht0).
      left. exists c0. split; [done|]. lia.
    + intros Hc1.
      destruct (set_called_time _ _ _ _ _ Hc Hc1) as (c0 & Hc0 & Ht0).
      left. eauto.
  - simpl. by apply Hsame.
Qed.

(** X16. With a [deploy_ttl] that is not negative, on every reachable
    state the delayed call a push owns is active and is due no earlier
    than [deploy_ttl] seconds after the push began: a push is never
    reaped by its own call before that. *)
Theorem own_call_is_not_due_before_ttl s :
  0 <= deploy_ttl config -> reachable s ->
  forall id d, deploys s !! id = Some d ->
    exists c, calls s !! expirator d = Some c /\ active c = true /\
              when d + deploy_ttl config <= time c.
Proof.
  intros Httl. induction 1 as [|s e Hs IH].
  - intros id d. unfold initial. simpl. by rewrite lookup_empty.
  - intros id d' Hd'.
    pose proof (reachable_step _ _ _ s e Hs) as Hs'.
    destruct (reachable_timers_ok _ _ _ _ Hs' _ _ Hd') as (c' & Hc' & Ha' & _).
    exists c'. split; [done|]. split; [done|].
    destruct (call_time_origin e s _ c' Httl Hc')
      as [(c0 & Hc0 & Hle)|[Hnone Hnew]];
      destruct (handle_deploy_origin e s id d' Hd')
        as [Hd|[(w & a & l & count & _ & ->)|(d & host & index & _ & Hd & Hd'')]].
    + destruct (IH _ _ Hd) as (c1 & Hc1 & _ & Hle1).
      assert (c1 = c0) as -> by congruence. lia.
    + simpl in Hc0. apply lookup_lt_Some in Hc0. lia.
    + destruct (IH _ _ Hd) as (c1 & Hc1 & _ & Hle1).
      destruct Hd'' as [-> | ->]; simpl in *;
        (assert (c1 = c0) as -> by congruence); lia.
    + destruct (IH _ _ Hd) as (c1 & Hc1 & _ & _). congruence.
    + simpl. lia.
    + destruct (IH _ _ Hd) as (c1 & Hc1 & _ & _).
      destruct Hd'' as [-> | ->]; simpl in *; congruence.
Qed.

(** *** One push at a time *)

(** X18. An event changes no push but its own: a begin, a progress, an
    end or an abort leaves the pushes stored under other ids as they
    were, a delayed call leaves every push but the one it was scheduled
    for, and a status query, a topic notification and the passing of
    time leave them all; this holds in every state, also when the
    handler raises. *)
Theorem events_touch_only_their_push e s id' :
  match e with
  | Began id _ _ _ _ | Progress id _ _ | Ended id | Aborted id _ => id <> id'
  | Expire h => forall c, calls s !! h = Some c -> call_arg c <> id'
  | _ => True
  end ->
  deploys (final (handle e s)) !! id' = deploys s !! id'.
Proof.
  destruct e as
    [id w a l count|id host index|id|id reason|sender chan|user chan topic|h|dt];
    unfold handle; cbv beta iota; intros Hother.
  - destruct (onPushBegan_ok config nick id w a l count s) as (s' & Hb & Hds & _).
    rewrite Hb. cbn [final]. rewrite Hds. by apply lookup_insert_ne.
  - destruct (deploys s !! id) as [d|] eqn:Hd.
    + destruct (onPushProgress_final config id host index d s Hd)
        as [->|(c & _ & ->)]; [done|].
      rewrite after_progress_deploys. by apply lookup_insert_ne.
    + by rewrite (onPushProgress_absent _ _ _ _ _ Hd).
  - rewrite onPushEnded_deploys. by apply lookup_delete_ne.
  - rewrite onPushAborted_deploys. by apply lookup_delete_ne.
  - by destruct (status_only_messages config sender chan s) as (-> & _).
  - by rewrite topic_changed_deploys.
  - destruct (expire_cases h s) as [->|(c & Hc & Ha & Hdue)]; [done|].
    rewrite (expire_due _ _ _ Hc Ha Hdue). cbv zeta.
    destruct (deploys s !! call_arg c); simpl; [|done].
    apply lookup_delete_ne. by apply Hother.
  - done.
Qed.

(** *** How many announcements a push gets *)


End FurtherProperties.

(** * The HTTP listeners *)

Section ListenerProperties.

Context (config : DeployConfig) (nick : string)
        (pretty_and_accurate_time_span : Z -> string)
        (int_ : string -> option Z).

Lemma with_arg_handled args key k r :
  with_arg args key k = Handled r <->
  exists v rest, args !! key = Some (v :: rest) /\ k v = Handled r.
Proof.
  unfold with_arg, first_arg. destruct (args !! key) as [[|v rest]|]; split;
    try done; try (by intros (? & ? & ? & ?)).
  - intros Hk. by exists v, rest.
  - by intros (v' & rest' & [= <- <-] & Hk).
Qed.

(** X17. A listener calls the monitor exactly when every field it reads
    is present in the request with at least one value (and, for a begin,
    [int] accepts the count); the monitor then receives the first value
    of each field.  In every other case the listener raises before the
    monitor is called. *)
Theorem listeners_call_monitor_iff_fields_present args s r :
  (ended_request config nick pretty_and_accurate_time_span args s = Handled r <->
   exists id rest,
     args !! "id" = Some (id :: rest) /\
     r = onPushEnded config nick pretty_and_accurate_time_span id s) /\
  (aborted_request config nick args s = Handled r <->
   exists id rest reason rest',
     args !! "id" = Some (id :: rest) /\
     args !! "reason" = Some (reason :: rest') /\
     r = onPushAborted config nick id reason s) /\
  (began_request config nick int_ args s = Handled r <->
   exists id r1 w r2 a r3 l r4 c r5 count,
     args !! "id" = Some (id :: r1) /\ args !! "who" = Some (w :: r2) /\
     args !! "args" = Some (a :: r3) /\ args !! "log_path" = Some (l :: r4) /\
     args !! "count" = Some (c :: r5) /\ int_ c = Some count /\
     r = onPushBegan config nick id w a l count s).
Proof.
  split; [|split].
  - unfold ended_request. rewrite with_arg_handled. split.
    + intros (id & rest & Hid & [= <-]). by exists id, rest.
    + intros (id & rest & Hid & ->). by exists id, rest.
  - unfold aborted_request. rewrite with_arg_handled. split.
    + intros (id & rest & Hid & (reason & rest' & Hr & [= <-])%with_arg_handled).
      by exists id, rest, reason, rest'.
    + intros (id & rest & reason & rest' & Hid & Hr & ->).
      exists id, rest. split; [done|]. apply with_arg_handled.
      by exists reason, rest'.
  - unfold began_request. rewrite with_arg_handled. split.
    + intros (id & r1 & Hid & (w & r2 & Hw & (a & r3 & Ha & (l & r4 & Hl &
                (c & r5 & Hc & Hk)%with_arg_handled)%with_arg_handled)
                %with_arg_handled)%with_arg_handled).
      destruct (int_ c) as [count|] eqn:Hint; [|done]. injection Hk as <-.
      by exists id, r1, w, r2, a, r3, l, r4, c, r5, count.
    + intros (id & r1 & w & r2 & a & r3 & l & r4 & c & r5 & count &
              Hid & Hw & Ha & Hl & Hc & Hint & ->).
      exists id, r1. split; [done|].
      apply with_arg_handled. exists w, r2. split; [done|].
      apply with_arg_handled. exists a, r3. split; [done|].
      apply with_arg_handled. exists l, r4. split; [done|].
      apply with_arg_handled. exists c, r5. split; [done|].
      by rewrite Hint.
Qed.

End ListenerProperties.

(** * The further properties on a concrete monitor *)

Lemma reachable_deploy_shape_witness :
  deploy_shape_ok
    (final (example_run [began_d1; Progress "d1" "app-01" 1] initial)).
Proof.
  apply (reachable_deploy_shape example_config "harold" example_time_span).
  apply (example_reachable [began_d1; Progress "d1" "app-01" 1]).
  by vm_compute.
Defined.


Lemma small_pushes_are_never_announced_witness :
  let s := final (example_run
                    [Began "d2" "bob" "-r app" "/var/log/push/d2" 5] initial) in
  exists s',
    example_run
      (progress_events "d2"
         [("app-01", 1%Q); ("app-03", 3%Q); ("app-05", 5%Q)]) s = Ok tt s' /\
    sink s' = sink s /\
    quadrant <$> deploys s' !! "d2" = Some 1.
Proof.
  intros s.
  apply (small_pushes_are_never_announced
           example_config "harold" example_time_span "d2"
           [("app-01", 1%Q); ("app-03", 3%Q); ("app-05", 5%Q)]
           {| deploy_id := "d2"; when := 0; who := "bob";
              args := "-r app"; log_path := "/var/log/push/d2"; quadrant := 1;
              where_ := None; completion := None; host_count := 5;
              expirator := 0 |} s).
  - apply (example_reachable [Began "d2" "bob" "-r app" "/var/log/push/d2" 5]).
    by vm_compute.
  - by vm_compute.
  - by vm_compute.
Defined.

Lemma other_channels_are_ignored_witness :
  let s := final (example_run [began_d1] initial) in
  status example_config "bob!bob@example.org" "#other" s = Ok tt s /\
  _topic_changed example_config "harold" "bob" "#other" "lunch at noon" s
    = Ok tt s.
Proof.
  intros s. apply other_channels_are_ignored. by vm_compute.
Defined.

Lemma timer_of_removed_push_never_fires_witness :
  let s := final (example_run [began_d1] initial) in
  let s1 := final (example_run [Ended "d1"; Sleep 60] s) in
  let s2 := final (example_run [Aborted "d1" "timeout"; Sleep 60] s) in
  handle example_config "harold" example_time_span (Expire 0) s1 = Ok tt s1 /\
  handle example_config "harold" example_time_span (Expire 0) s2 = Ok tt s2.
Proof.
  intros s.
  apply (timer_of_removed_push_never_fires
           example_config "harold" example_time_span "d1" "timeout"
           {| deploy_id := "d1"; when := 0; who := "alice";
              args := "-r all"; log_path := "/var/log/push/d1"; quadrant := 1;
              where_ := None; completion := None; host_count := 10;
              expirator := 0 |} 60%N s).
  by vm_compute.
Defined.

Lemma begin_then_end_restores_registry_witness :
  exists s2 topic1,
    example_run [began_d1; Ended "d1"] initial = Ok tt s2 /\
    deploys s2 = deploys initial /\
    calls s2 = (calls initial ++ [mkCall (0 + 10) "d1" true false])%list /\
    emitted_since initial s2 =
      [set_topic "#deploys" topic1;
       send_message "#deploys"
         ("alice" +:+ " started push " +:+ dquote +:+ "d1" +:+ dquote +:+
          " with args " +:+ "-r all");
       send_message "#deploys"
         ("alice" +:+ "'s push " +:+ dquote +:+ "d1" +:+ dquote +:+
          " complete. Took " +:+ example_time_span 0);
       set_topic "#deploys"
         (topic_of "harold" (topic_to_restore initial)
            (map_to_list (deploys initial)).*2)].
Proof.
  apply (begin_then_end_restores_registry
           example_config "harold" example_time_span
           "d1" "alice" "-r all" "/var/log/push/d1" 10 initial);
    by vm_compute.
Defined.

Lemma end_of_last_push_restores_topic_witness :
  let s := final (example_run
                    [TopicUpdated "bob" "#deploys" "lunch at noon"; began_d1;
                     Sleep 7] initial) in
  emitted_since s (final (example_run [Ended "d1"] s)) =
    [send_message "#deploys"
       ("alice's push " +:+ dquote +:+ "d1" +:+ dquote +:+
        " complete. Took 7 seconds");
     set_topic "#deploys" "lunch at noon"].
Proof.
  intros s.
  apply (end_of_last_push_restores_topic
           example_config "harold" example_time_span "d1" "timeout"
           {| deploy_id := "d1"; when := 0; who := "alice";
              args := "-r all"; log_path := "/var/log/push/d1"; quadrant := 1;
              where_ := None; completion := None; host_count := 10;
              expirator := 0 |} s);
    by vm_compute.
Defined.

Lemma own_topic_is_not_remembered_witness :
  let s := final (example_run [began_d1] initial) in
  exists topic,
    _update_topic example_config "harold" s
      = Ok tt (emit (set_topic "#deploys" topic) s) /\
    _topic_changed example_config "harold" "irc.example.org" "#deploys" topic s
      = Ok tt s.
Proof.
  intros s.
  apply (own_topic_is_not_remembered example_config "harold").
  by vm_compute.
Defined.

Lemma topic_of_several_pushes_witness :
  let s := final (example_run
                    [began_d1; Sleep 65;
                     Began "d2" "bob" "-r app" "/var/log/push/d2" 5] initial) in
  exists earliest,
    _update_topic example_config "harold" s =
      Ok tt (emit (set_topic "#deploys"
                     ("<harold> 2 pushes running (earliest started at " +:+
                      strftime_HM earliest +:+ "). check " +:+
                      dquote +:+ "status" +:+ dquote +:+ ".")) s) /\
    (exists id d, deploys s !! id = Some d /\ when d = earliest) /\
    (forall id d, deploys s !! id = Some d -> earliest <= when d).
Proof.
  intros s.
  apply (topic_of_several_pushes example_config "harold").
  vm_compute. lia.
Defined.

Lemma status_without_pushes_witness :
  status example_config "bob!bob@example.org" "#deploys" initial =
    Ok tt (emit (send_message "#deploys"
                   "bob, there are currently no active pushes.") initial).
Proof.
  apply (status_without_pushes example_config "bob" "bob@example.org" initial).
  - reflexivity.
  - simpl. intros [H|[H|[H|[]]]]; discriminate H.
Defined.

Ltac each_push :=
  apply map_Forall_to_list;
  match goal with
  | |- Forall _ ?l => let l' := eval vm_compute in l in change l with l'
  end;
  repeat first [apply List.Forall_nil | apply List.Forall_cons]; hnf.

Ltac ordinary_push :=
  split; [by vm_compute|];
  first [by intros index [=] | intros index [= <-]; by vm_compute].

Lemma status_raises_iff_zero_hosts_witness :
  raised (status example_config "bob!bob@example.org" "#deploys"
            (final (example_run
                      [Began "d1" "alice" "-r all" "/var/log/push/d1" 0;
                       Progress "d1" "app-01" 0] initial)))
    = Some ZeroDivisionError /\
  raised (status example_config "bob!bob@example.org" "#deploys"
            (final (example_run [began_d1; Progress "d1" "app-01" 0] initial)))
    = None.
Proof.
  split.
  - apply (status_raises_iff_zero_hosts
             example_config "harold" example_time_span).
    + apply (example_reachable
               [Began "d1" "alice" "-r all" "/var/log/push/d1" 0;
                Progress "d1" "app-01" 0]).
      by vm_compute.
    + each_push; ordinary_push.
    + exists "d1". eexists. split; by vm_compute.
  - apply (status_raises_iff_zero_hosts
             example_config "harold" example_time_span).
    + apply (example_reachable [began_d1; Progress "d1" "app-01" 0]).
      by vm_compute.
    + each_push; ordinary_push.
    + each_push. by vm_compute.
Defined.

Lemma status_lists_pushes_by_start_time_witness :
  let s := final (example_run
                    [Began "d2" "bob" "-r app" "/var/log/push/d2" 100; Sleep 65;
                     began_d1; Progress "d2" "app-29" 29] initial) in
  exists s' ds lines,
    status example_config "carol!carol@example.org" "#deploys" s = Ok tt s' /\
    ds ≡ₚ (map_to_list (deploys s)).*2 /\
    StronglySorted (fun a b => when a <= when b) ds /\
    emitted_since s s' = send_message "#deploys" <$> lines /\
    length lines = 2%nat /\
    Forall2 (fun d line =>
               exists st,
                 (forall s0, status_suffix d s0 = Ok st s0) /\
                 line = status_line "carol" d st)
            ds lines.
Proof.
  intros s.
  apply (status_lists_pushes_by_start_time
           example_config "harold" example_time_span
           "carol!carol@example.org" s).
  - apply (example_reachable
             [Began "d2" "bob" "-r app" "/var/log/push/d2" 100; Sleep 65;
              began_d1; Progress "d2" "app-29" 29]).
    by vm_compute.
  - by vm_compute.
  - each_push; ordinary_push.
  - each_push; by vm_compute.
Defined.

(** The lines of the state above: 29 hosts of 100 are shown as 28%,
    since 29.0 / 100 * 100.0 is 28.999999999999996 in binary64. *)
Example status_percent_is_rounded_as_a_double :
  let s := final (example_run
                    [Began "d2" "bob" "-r app" "/var/log/push/d2" 100; Sleep 65;
                     began_d1; Progress "d2" "app-29" 29] initial) in
  emitted_since s
    (final (status example_config "carol!carol@example.org" "#deploys" s)) =
    [send_message "#deploys"
       ("carol, bob started push " +:+ dquote +:+ "d2" +:+ dquote +:+
        " (which is on app-29 -- 28% done) at 00:00 with args " +:+
        dquote +:+ "-r app" +:+ dquote +:+ ". log: /var/log/push/d2");
     send_message "#deploys"
       ("carol, alice started push " +:+ dquote +:+ "d1" +:+ dquote +:+
        " at 00:01 with args " +:+
        dquote +:+ "-r all" +:+ dquote +:+ ". log: /var/log/push/d1")].
Proof. by vm_compute. Qed.

(** Beyond the ordinary magnitudes the percentage can be infinite: with
    8 hosts and the index 2^1023 the product with 100.0 overflows, and
    the status query raises although no host count is 0. *)
Example status_raises_on_an_infinite_percent :
  let s := final (example_run
                    [Began "d1" "alice" "-r all" "/var/log/push/d1" 8;
                     Progress "d1" "app-01" (inject_Z (2 ^ 1023))] initial) in
  raised (example_run [Progress "d1" "app-01" (inject_Z (2 ^ 1023))]
            (final (example_run
                      [Began "d1" "alice" "-r all" "/var/log/push/d1" 8]
                      initial))) = None /\
  divides_by_zero <$> deploys s !! "d1" = Some false /\
  raised (status example_config "bob!bob@example.org" "#deploys" s) <> None.
Proof. by vm_compute. Qed.

Lemma bot_writes_only_to_configured_channel_witness :
  Forall (fun op => channel_of op = "#deploys")
    (sink (final (example_run
                    [began_d1; Progress "d1" "app-05" 5;
                     StatusQuery "bob!bob@example.org" "#deploys";
                     StatusQuery "bob!bob@example.org" "#other";
                     Ended "d1"] initial))).
Proof.
  apply (bot_writes_only_to_configured_channel
           example_config "harold" example_time_span).
  apply (example_reachable
           [began_d1; Progress "d1" "app-05" 5;
            StatusQuery "bob!bob@example.org" "#deploys";
            StatusQuery "bob!bob@example.org" "#other";
            Ended "d1"]).
  by vm_compute.
Defined.

Lemma own_call_is_not_due_before_ttl_witness :
  let s := final (example_run
                    [Sleep 4; began_d1; Sleep 3; Progress "d1" "app-01" 1]
                    initial) in
  exists c, calls s !! 0%nat = Some c /\ active c = true /\ 4 + 10 <= time c.
Proof.
  intros s.
  apply (own_call_is_not_due_before_ttl
           example_config "harold" example_time_span s ltac:(by vm_compute)
           (example_reachable
              [Sleep 4; began_d1; Sleep 3; Progress "d1" "app-01" 1] s eq_refl)
           "d1"
           {| deploy_id := "d1"; when := 4; who := "alice";
              args := "-r all"; log_path := "/var/log/push/d1"; quadrant := 1;
              where_ := Some "app-01"; completion := Some 1%Q;
              host_count := 10; expirator := 0 |}).
  by vm_compute.
Defined.

Lemma listeners_call_monitor_iff_fields_present_witness :
  let s := final (example_run [began_d1] initial) in
  aborted_request example_config "harold"
    (<["id" := ["d1"]]> (<["reason" := ["timeout"; "ignored"]]> ∅)) s
    = Handled (onPushAborted example_config "harold" "d1" "timeout" s) /\
  forall r,
    aborted_request example_config "harold" (<["id" := ["d1"]]> ∅) s
      <> Handled r.
Proof.
  intros s. split.
  - apply (listeners_call_monitor_iff_fields_present
             example_config "harold" example_time_span (fun _ => None)).
    exists "d1", [], "timeout", ["ignored"]. by vm_compute.
  - intros r Hr.
    apply (listeners_call_monitor_iff_fields_present
             example_config "harold" example_time_span (fun _ => None)) in Hr
      as (id & rest & reason & rest' & _ & Hreason & _).
    by vm_compute in Hreason.
Defined.

Lemma events_touch_only_their_push_witness :
  let s := final (example_run
                    [began_d1; Began "d2" "bob" "-r app" "/var/log/push/d2" 5]
                    initial) in
  deploys (final (handle example_config "harold" example_time_span
                    (Ended "d1") s)) !! "d2"
    = deploys s !! "d2".
Proof.
  intros s.
  apply (events_touch_only_their_push
           example_config "harold" example_time_span (Ended "d1") s "d2").
  discriminate.
Defined.

